(** * MarkText document persistence: load, save, codec, asset collector

    A shallow embedding of [src/main/filesystem/markdown.js] and of the
    orphan-asset collector of [src/main/menu/actions/file.js], together with
    the parts of the JavaScript and Node.js run time those functions call
    (UTF-16 strings, [Buffer] encodings, [crypto], [path], regular
    expressions, [decodeURI]).

    Layout: the embedding first (one module per source file or run-time
    library), then the lemmas and the theorems about it. *)

From Stdlib Require Import List NArith ZArith Bool Lia Arith Btauto.
From Stdlib Require Import Strings.Byte.
From Stdlib Require Strings.String Strings.Ascii.
Import ListNotations.
Import String.StringSyntax.
Delimit Scope string_scope with string.
Bind Scope string_scope with String.string.

Local Open Scope N_scope.
Local Open Scope list_scope.

(* ================================================================== *)
(** * Part I: the embedding                                            *)
(* ================================================================== *)

(** ** JavaScript values *)

(** A JavaScript string is a sequence of UTF-16 code units. *)
Definition jsstring := list N.

(** ASCII literals of the source, as code units. *)
Fixpoint js (s : String.string) : jsstring :=
  match s with
  | String.EmptyString => []
  | String.String c r => Ascii.N_of_ascii c :: js r
  end.

Definition LF : N := 10.
Definition CR : N := 13.
Definition DQUOTE : N := 34.

(** [a === b] on strings. *)
Fixpoint str_eqb (a b : jsstring) : bool :=
  match a, b with
  | [], [] => true
  | x :: a', y :: b' => (x =? y) && str_eqb a' b'
  | _, _ => false
  end.

(** [a] is a prefix of [s]. *)
Fixpoint startsWith (s a : jsstring) {struct a} : bool :=
  match a, s with
  | [], _ => true
  | x :: a', y :: s' => (x =? y) && startsWith s' a'
  | _ :: _, [] => false
  end.

(** [String.prototype.endsWith]. *)
Definition endsWith (s a : jsstring) : bool :=
  startsWith (rev s) (rev a).

(** [String.prototype.indexOf]: position of the first occurrence of [a] in
    [s], [None] standing for [-1]. *)
Fixpoint indexOf (s a : jsstring) : option nat :=
  if startsWith s a then Some 0%nat
  else match s with
       | [] => None
       | _ :: s' => option_map S (indexOf s' a)
       end.

(** [s.replace(pat, by)] with a string pattern: only the first occurrence is
    replaced.  (The replacement strings of the source contain no [$].) *)
Definition replaceFirst (s pat by_ : jsstring) : jsstring :=
  match indexOf s pat with
  | None => s
  | Some i => firstn i s ++ by_ ++ skipn (i + length pat) s
  end.

(** Functions that may throw return a [result]. *)
Inductive result (E A : Type) : Type :=
| Ok (a : A)
| Throw (e : E).
Arguments Ok {E A} a.
Arguments Throw {E A} e.

(** ** Buffers and their encodings *)

Module Buf.

Definition byte_of_N (n : N) : byte :=
  match Byte.of_N (n mod 256) with
  | Some b => b
  | None => x00
  end.

Definition bxor (a b : byte) : byte :=
  byte_of_N (N.lxor (Byte.to_N a) (Byte.to_N b)).

(** The 256 bytes, for properties that are checked by enumeration. *)
Definition all_bytes : list byte :=
  map (fun n => byte_of_N (N.of_nat n)) (seq 0 256).

(** [f] distributes over the exclusive or. *)
Definition linear (f : byte -> byte) : Prop :=
  forall a b, f (bxor a b) = bxor (f a) (f b).

(** *** [Buffer.from(str, 'hex')] and [digest('hex')] *)

Definition hex_digit (c : N) : option N :=
  if (48 <=? c) && (c <=? 57) then Some (c - 48)
  else if (97 <=? c) && (c <=? 102) then Some (c - 87)
  else if (65 <=? c) && (c <=? 70) then Some (c - 55)
  else None.

(** Decoding stops at the first pair that is not two hex digits. *)
Fixpoint hex_decode (s : jsstring) : list byte :=
  match s with
  | a :: b :: r =>
      match hex_digit a, hex_digit b with
      | Some x, Some y => byte_of_N (16 * x + y) :: hex_decode r
      | _, _ => []
      end
  | _ => []
  end.

Definition hex_char (n : N) : N :=
  if n <? 10 then 48 + n else 87 + n.

Fixpoint hex_encode (bs : list byte) : jsstring :=
  match bs with
  | [] => []
  | b :: r =>
      hex_char (Byte.to_N b / 16) :: hex_char (Byte.to_N b mod 16)
      :: hex_encode r
  end.

(** *** UTF-8 *)

Definition is_high_surrogate (u : N) : bool := (0xD800 <=? u) && (u <=? 0xDBFF).
Definition is_low_surrogate (u : N) : bool := (0xDC00 <=? u) && (u <=? 0xDFFF).

Definition replacement_bytes : list byte := [xef; xbf; xbd].

(** UTF-8 bytes of one code point. *)
Definition utf8_of_code_point (cp : N) : list byte :=
  if cp <? 0x80 then [byte_of_N cp]
  else if cp <? 0x800 then
    [byte_of_N (0xC0 + cp / 64); byte_of_N (0x80 + cp mod 64)]
  else if cp <? 0x10000 then
    [byte_of_N (0xE0 + cp / 4096); byte_of_N (0x80 + (cp / 64) mod 64);
     byte_of_N (0x80 + cp mod 64)]
  else
    [byte_of_N (0xF0 + cp / 262144); byte_of_N (0x80 + (cp / 4096) mod 64);
     byte_of_N (0x80 + (cp / 64) mod 64); byte_of_N (0x80 + cp mod 64)].

(** [Buffer.from(str, 'utf8')]: surrogate pairs are combined, a surrogate
    that stands alone is written as U+FFFD. *)
Fixpoint utf8_encode (s : jsstring) : list byte :=
  match s with
  | [] => []
  | u :: r =>
      if is_high_surrogate u then
        match r with
        | v :: r' =>
            if is_low_surrogate v then
              utf8_of_code_point
                (0x10000 + (u - 0xD800) * 0x400 + (v - 0xDC00))
              ++ utf8_encode r'
            else replacement_bytes ++ utf8_encode r
        | [] => replacement_bytes
        end
      else if is_low_surrogate u then replacement_bytes ++ utf8_encode r
      else utf8_of_code_point u ++ utf8_encode r
  end.

(** The decoder is the state machine of the Encoding Standard, in
    replacement mode. *)
Inductive u8state : Type :=
| U8Start
| U8Cont (needed : nat) (cp lower upper : N).

Definition utf16_of_code_point (cp : N) : jsstring :=
  if cp <? 0x10000 then [cp]
  else [0xD800 + (cp - 0x10000) / 0x400; 0xDC00 + (cp - 0x10000) mod 0x400].

(** A Unicode scalar value. *)
Definition scalar (cp : N) : Prop :=
  cp < 0x110000 /\ ~ (0xD800 <= cp <= 0xDFFF).

(** First byte of a sequence: what is emitted, and the next state. *)
Definition u8_first (n : N) : jsstring * u8state :=
  if n <? 0x80 then ([n], U8Start)
  else if (0xC2 <=? n) && (n <=? 0xDF) then ([], U8Cont 1 (n mod 32) 0x80 0xBF)
  else if (0xE0 <=? n) && (n <=? 0xEF) then
    ([], U8Cont 2 (n mod 16)
           (if n =? 0xE0 then 0xA0 else 0x80)
           (if n =? 0xED then 0x9F else 0xBF))
  else if (0xF0 <=? n) && (n <=? 0xF4) then
    ([], U8Cont 3 (n mod 8)
           (if n =? 0xF0 then 0x90 else 0x80)
           (if n =? 0xF4 then 0x8F else 0xBF))
  else ([0xFFFD], U8Start).

Fixpoint utf8_decode_from (st : u8state) (bs : list byte) : jsstring :=
  match bs with
  | [] => match st with U8Start => [] | U8Cont _ _ _ _ => [0xFFFD] end
  | b :: r =>
      let n := Byte.to_N b in
      match st with
      | U8Start =>
          let '(out, st') := u8_first n in
          out ++ utf8_decode_from st' r
      | U8Cont needed cp lo hi =>
          if (lo <=? n) && (n <=? hi) then
            let cp' := cp * 64 + n mod 64 in
            match needed with
            | S (S k) => utf8_decode_from (U8Cont (S k) cp' 0x80 0xBF) r
            | _ => utf16_of_code_point cp' ++ utf8_decode_from U8Start r
            end
          else
            let '(out, st') := u8_first n in
            0xFFFD :: out ++ utf8_decode_from st' r
      end
  end.

(** [buf.toString('utf8')]. *)
Definition utf8_decode (bs : list byte) : jsstring :=
  utf8_decode_from U8Start bs.

(** *** Base64 *)

Definition b64_char (n : N) : N :=
  if n <? 26 then 65 + n
  else if n <? 52 then 97 + (n - 26)
  else if n <? 62 then 48 + (n - 52)
  else if n =? 62 then 43
  else 47.

Definition EQUALS : N := 61.

(** [buf.toString('base64')]. *)
Fixpoint base64_encode (bs : list byte) : jsstring :=
  match bs with
  | [] => []
  | [a] =>
      let a := Byte.to_N a in
      [b64_char (a / 4); b64_char ((a mod 4) * 16); EQUALS; EQUALS]
  | [a; b] =>
      let a := Byte.to_N a in
      let b := Byte.to_N b in
      [b64_char (a / 4); b64_char ((a mod 4) * 16 + b / 16);
       b64_char ((b mod 16) * 4); EQUALS]
  | a :: b :: c :: r =>
      let a := Byte.to_N a in
      let b := Byte.to_N b in
      let c := Byte.to_N c in
      b64_char (a / 4) :: b64_char ((a mod 4) * 16 + b / 16)
      :: b64_char ((b mod 16) * 4 + c / 64) :: b64_char (c mod 64)
      :: base64_encode r
  end.

(** Value of a base64 character; the URL-safe [-] and [_] are accepted. *)
Definition unbase64 (c : N) : option N :=
  if (65 <=? c) && (c <=? 90) then Some (c - 65)
  else if (97 <=? c) && (c <=? 122) then Some (c - 97 + 26)
  else if (48 <=? c) && (c <=? 57) then Some (c - 48 + 52)
  else if (c =? 43) || (c =? 45) then Some 62
  else if (c =? 47) || (c =? 95) then Some 63
  else None.

(** Node's decoder is forgiving: characters outside the alphabet are
    skipped and decoding stops at the first [=]. *)
Fixpoint b64_sextets (s : jsstring) : list N :=
  match s with
  | [] => []
  | c :: r =>
      if c =? EQUALS then []
      else match unbase64 c with
           | Some v => v :: b64_sextets r
           | None => b64_sextets r
           end
  end.

Fixpoint b64_groups (v : list N) : list byte :=
  match v with
  | a :: b :: c :: d :: r =>
      byte_of_N (a * 4 + b / 16) :: byte_of_N ((b mod 16) * 16 + c / 4)
      :: byte_of_N ((c mod 4) * 64 + d) :: b64_groups r
  | [a; b; c] =>
      [byte_of_N (a * 4 + b / 16); byte_of_N ((b mod 16) * 16 + c / 4)]
  | [a; b] => [byte_of_N (a * 4 + b / 16)]
  | _ => []
  end.

(** [Buffer.from(str, 'base64')]. *)
Definition base64_decode (s : jsstring) : list byte :=
  b64_groups (b64_sextets s).

End Buf.

(** ** Node's [crypto]: MD5 (RFC 1321) *)

Module MD5.
Import Buf.

Definition w32 (n : N) : N := n mod 4294967296.
Definition not32 (x : N) : N := N.lxor x 0xFFFFFFFF.
Definition rotl32 (x s : N) : N :=
  w32 (N.lor (N.shiftl x s) (N.shiftr x (32 - s))).

Definition K : list N :=
  [0xd76aa478; 0xe8c7b756; 0x242070db; 0xc1bdceee; 0xf57c0faf; 0x4787c62a;
   0xa8304613; 0xfd469501; 0x698098d8; 0x8b44f7af; 0xffff5bb1; 0x895cd7be;
   0x6b901122; 0xfd987193; 0xa679438e; 0x49b40821; 0xf61e2562; 0xc040b340;
   0x265e5a51; 0xe9b6c7aa; 0xd62f105d; 0x02441453; 0xd8a1e681; 0xe7d3fbc8;
   0x21e1cde6; 0xc33707d6; 0xf4d50d87; 0x455a14ed; 0xa9e3e905; 0xfcefa3f8;
   0x676f02d9; 0x8d2a4c8a; 0xfffa3942; 0x8771f681; 0x6d9d6122; 0xfde5380c;
   0xa4beea44; 0x4bdecfa9; 0xf6bb4b60; 0xbebfbc70; 0x289b7ec6; 0xeaa127fa;
   0xd4ef3085; 0x04881d05; 0xd9d4d039; 0xe6db99e5; 0x1fa27cf8; 0xc4ac5665;
   0xf4292244; 0x432aff97; 0xab9423a7; 0xfc93a039; 0x655b59c3; 0x8f0ccc92;
   0xffeff47d; 0x85845dd1; 0x6fa87e4f; 0xfe2ce6e0; 0xa3014314; 0x4e0811a1;
   0xf7537e82; 0xbd3af235; 0x2ad7d2bb; 0xeb86d391].

Definition shifts : list N :=
  [7; 12; 17; 22; 7; 12; 17; 22; 7; 12; 17; 22; 7; 12; 17; 22;
   5; 9; 14; 20; 5; 9; 14; 20; 5; 9; 14; 20; 5; 9; 14; 20;
   4; 11; 16; 23; 4; 11; 16; 23; 4; 11; 16; 23; 4; 11; 16; 23;
   6; 10; 15; 21; 6; 10; 15; 21; 6; 10; 15; 21; 6; 10; 15; 21].

(** Little-endian bytes of a number. *)
Fixpoint le_bytes (n : nat) (x : N) : list byte :=
  match n with
  | O => []
  | S n' => byte_of_N x :: le_bytes n' (x / 256)
  end.

Definition pad (m : list byte) : list byte :=
  let l := N.of_nat (length m) in
  m ++ [x80] ++ repeat x00 (N.to_nat ((119 - l mod 64) mod 64))
    ++ le_bytes 8 (8 * l).

(** The 32-bit little-endian words of a message. *)
Fixpoint words (bs : list byte) : list N :=
  match bs with
  | a :: b :: c :: d :: r =>
      (Byte.to_N a + 256 * (Byte.to_N b + 256 * (Byte.to_N c + 256 * Byte.to_N d)))
      :: words r
  | _ => []
  end.

Definition md5state : Type := N * N * N * N.

Definition step (M : list N) (st : md5state) (i : nat) : md5state :=
  let '(a, b, c, d) := st in
  let '(f, g) :=
    if (i <? 16)%nat then
      (N.lor (N.land b c) (N.land (not32 b) d), i)
    else if (i <? 32)%nat then
      (N.lor (N.land d b) (N.land (not32 d) c), ((5 * i + 1) mod 16)%nat)
    else if (i <? 48)%nat then
      (N.lxor b (N.lxor c d), ((3 * i + 5) mod 16)%nat)
    else
      (N.lxor c (N.lor b (not32 d)), ((7 * i) mod 16)%nat) in
  let f' := w32 (f + a + nth i K 0 + nth g M 0) in
  (d, w32 (b + rotl32 f' (nth i shifts 0)), b, c).

Definition chunk (st : md5state) (M : list N) : md5state :=
  let '(a0, b0, c0, d0) := st in
  let '(a, b, c, d) := fold_left (step M) (seq 0 64) st in
  (w32 (a0 + a), w32 (b0 + b), w32 (c0 + c), w32 (d0 + d)).

Fixpoint chunks (fuel : nat) (st : md5state) (ws : list N) : md5state :=
  match fuel, ws with
  | S fuel', _ :: _ => chunks fuel' (chunk st (firstn 16 ws)) (skipn 16 ws)
  | _, _ => st
  end.

Definition init : md5state :=
  (0x67452301, 0xefcdab89, 0x98badcfe, 0x10325476).

(** [crypto.createHash('md5').update(m).digest()]. *)
Definition md5 (m : list byte) : list byte :=
  let ws := words (pad m) in
  let '(a, b, c, d) := chunks (length ws) init ws in
  le_bytes 4 a ++ le_bytes 4 b ++ le_bytes 4 c ++ le_bytes 4 d.

End MD5.

(** ** Node's [crypto]: AES-128 (FIPS 197) in CBC mode with PKCS#7 padding *)

Module AES.
Import Buf.

Record word : Type := W { b0 : byte; b1 : byte; b2 : byte; b3 : byte }.

(** The state, by columns: byte [r + 4c] of a block is row [r] of column
    [c]. *)
Record state : Type := St { c0 : word; c1 : word; c2 : word; c3 : word }.

Definition sbox_table : list byte :=
  hex_decode (js
    "637c777bf26b6fc53001672bfed7ab76ca82c97dfa5947f0add4a2af9ca472c0b7fd9326363ff7cc34a5e5f171d8311504c723c31896059a071280e2eb27b27509832c1a1b6e5aa0523bd6b329e32f8453d100ed20fcb15b6acbbe394a4c58cfd0efaafb434d338545f9027f503c9fa851a3408f929d38f5bcb6da2110fff3d2cd0c13ec5f974417c4a77e3d645d197360814fdc222a908846eeb814de5e0bdbe0323a0a4906245cc2d3ac629195e479e7c8376d8dd54ea96c56f4ea657aae08ba78252e1ca6b4c6e8dd741f4bbd8b8a703eb5664803f60e613557b986c11d9ee1f8981169d98e949b1e87e9ce5528df8ca1890dbfe6426841992d0fb054bb16").

Definition inv_sbox_table : list byte :=
  hex_decode (js
    "52096ad53036a538bf40a39e81f3d7fb7ce339829b2fff87348e4344c4dee9cb547b9432a6c2233dee4c950b42fac34e082ea16628d924b2765ba2496d8bd12572f8f66486689816d4a45ccc5d65b6926c704850fdedb9da5e154657a78d9d8490d8ab008cbcd30af7e45805b8b34506d02c1e8fca3f0f02c1afbd0301138a6b3a9111414f67dcea97f2cfcef0b4e67396ac7422e7ad3585e2f937e81c75df6e47f11a711d29c5896fb7620eaa18be1bfc563e4bc6d279209adbc0fe78cd5af41fdda8338807c731b11210592780ec5f60517fa919b54a0d2de57a9f93c99cefa0e03b4dae2af5b0c8ebbb3c83539961172b047eba77d626e169146355210c7d").

Definition sbox (b : byte) : byte :=
  nth (N.to_nat (Byte.to_N b)) sbox_table x00.
Definition inv_sbox (b : byte) : byte :=
  nth (N.to_nat (Byte.to_N b)) inv_sbox_table x00.

(** Multiplication by [x] in GF(2^8) modulo [x^8 + x^4 + x^3 + x + 1]. *)
Definition xtime (b : byte) : byte :=
  let n := Byte.to_N b in
  if n <? 128 then byte_of_N (2 * n)
  else byte_of_N (N.lxor (2 * n - 256) 0x1b).

Definition mul2 (b : byte) : byte := xtime b.
Definition mul3 (b : byte) : byte := bxor (xtime b) b.
Definition mul9 (b : byte) : byte := bxor (xtime (xtime (xtime b))) b.
Definition mul11 (b : byte) : byte :=
  bxor (bxor (xtime (xtime (xtime b))) (xtime b)) b.
Definition mul13 (b : byte) : byte :=
  bxor (bxor (xtime (xtime (xtime b))) (xtime (xtime b))) b.
Definition mul14 (b : byte) : byte :=
  bxor (bxor (xtime (xtime (xtime b))) (xtime (xtime b))) (xtime b).

Definition map_word (f : byte -> byte) (w : word) : word :=
  W (f (b0 w)) (f (b1 w)) (f (b2 w)) (f (b3 w)).
Definition xor_word (v w : word) : word :=
  W (bxor (b0 v) (b0 w)) (bxor (b1 v) (b1 w))
    (bxor (b2 v) (b2 w)) (bxor (b3 v) (b3 w)).
Definition map_state (f : word -> word) (s : state) : state :=
  St (f (c0 s)) (f (c1 s)) (f (c2 s)) (f (c3 s)).

Definition SubBytes : state -> state := map_state (map_word sbox).
Definition InvSubBytes : state -> state := map_state (map_word inv_sbox).

(** Row [r] is rotated left by [r] columns. *)
Definition ShiftRows (s : state) : state :=
  St (W (b0 (c0 s)) (b1 (c1 s)) (b2 (c2 s)) (b3 (c3 s)))
     (W (b0 (c1 s)) (b1 (c2 s)) (b2 (c3 s)) (b3 (c0 s)))
     (W (b0 (c2 s)) (b1 (c3 s)) (b2 (c0 s)) (b3 (c1 s)))
     (W (b0 (c3 s)) (b1 (c0 s)) (b2 (c1 s)) (b3 (c2 s))).

Definition InvShiftRows (s : state) : state :=
  St (W (b0 (c0 s)) (b1 (c3 s)) (b2 (c2 s)) (b3 (c1 s)))
     (W (b0 (c1 s)) (b1 (c0 s)) (b2 (c3 s)) (b3 (c2 s)))
     (W (b0 (c2 s)) (b1 (c1 s)) (b2 (c0 s)) (b3 (c3 s)))
     (W (b0 (c3 s)) (b1 (c2 s)) (b2 (c1 s)) (b3 (c0 s))).

Definition xor4 (a b c d : byte) : byte := bxor (bxor (bxor a b) c) d.

Definition mix_column (w : word) : word :=
  let '(W a0 a1 a2 a3) := w in
  W (xor4 (mul2 a0) (mul3 a1) a2 a3)
    (xor4 a0 (mul2 a1) (mul3 a2) a3)
    (xor4 a0 a1 (mul2 a2) (mul3 a3))
    (xor4 (mul3 a0) a1 a2 (mul2 a3)).

Definition inv_mix_column (w : word) : word :=
  let '(W a0 a1 a2 a3) := w in
  W (xor4 (mul14 a0) (mul11 a1) (mul13 a2) (mul9 a3))
    (xor4 (mul9 a0) (mul14 a1) (mul11 a2) (mul13 a3))
    (xor4 (mul13 a0) (mul9 a1) (mul14 a2) (mul11 a3))
    (xor4 (mul11 a0) (mul13 a1) (mul9 a2) (mul14 a3)).

Definition MixColumns : state -> state := map_state mix_column.
Definition InvMixColumns : state -> state := map_state inv_mix_column.

Definition AddRoundKey (k s : state) : state :=
  St (xor_word (c0 s) (c0 k)) (xor_word (c1 s) (c1 k))
     (xor_word (c2 s) (c2 k)) (xor_word (c3 s) (c3 k)).

(** *** Key expansion *)

Definition RotWord (w : word) : word := W (b1 w) (b2 w) (b3 w) (b0 w).
Definition SubWord : word -> word := map_word sbox.

Definition rcon : list byte := [x01; x02; x04; x08; x10; x20; x40; x80; x1b; x36].

Definition next_round_key (rc : byte) (k : state) : state :=
  let t := xor_word (SubWord (RotWord (c3 k))) (W rc x00 x00 x00) in
  let w4 := xor_word (c0 k) t in
  let w5 := xor_word (c1 k) w4 in
  let w6 := xor_word (c2 k) w5 in
  let w7 := xor_word (c3 k) w6 in
  St w4 w5 w6 w7.

Fixpoint expand (rcs : list byte) (k : state) : list state :=
  match rcs with
  | [] => []
  | rc :: r => let k' := next_round_key rc k in k' :: expand r k'
  end.

(** The eleven round keys of AES-128. *)
Definition KeyExpansion (k : state) : list state := k :: expand rcon k.

(** *** Cipher and inverse cipher *)

(** The rounds after the initial [AddRoundKey]; the last one has no
    [MixColumns]. *)
Fixpoint rounds (ks : list state) (s : state) : state :=
  match ks with
  | [] => s
  | [k] => AddRoundKey k (ShiftRows (SubBytes s))
  | k :: ks' => rounds ks' (AddRoundKey k (MixColumns (ShiftRows (SubBytes s))))
  end.

Definition Cipher (ks : list state) (s : state) : state :=
  match ks with
  | [] => s
  | k :: ks' => rounds ks' (AddRoundKey k s)
  end.

Fixpoint inv_rounds (ks : list state) (s : state) : state :=
  match ks with
  | [] => s
  | [k] => InvSubBytes (InvShiftRows (AddRoundKey k s))
  | k :: ks' =>
      InvSubBytes (InvShiftRows (InvMixColumns (AddRoundKey k (inv_rounds ks' s))))
  end.

Definition InvCipher (ks : list state) (s : state) : state :=
  match ks with
  | [] => s
  | k :: ks' => AddRoundKey k (inv_rounds ks' s)
  end.

(** *** Blocks of a byte string *)

Definition bytes_of_word (w : word) : list byte := [b0 w; b1 w; b2 w; b3 w].
Definition bytes_of_state (s : state) : list byte :=
  bytes_of_word (c0 s) ++ bytes_of_word (c1 s)
  ++ bytes_of_word (c2 s) ++ bytes_of_word (c3 s).

(** The whole 16-byte blocks of [bs], and the bytes left over. *)
Fixpoint split_blocks (bs : list byte) : list state * list byte :=
  match bs with
  | a0 :: a1 :: a2 :: a3 :: a4 :: a5 :: a6 :: a7
    :: a8 :: a9 :: a10 :: a11 :: a12 :: a13 :: a14 :: a15 :: r =>
      let '(bl, rest) := split_blocks r in
      (St (W a0 a1 a2 a3) (W a4 a5 a6 a7) (W a8 a9 a10 a11) (W a12 a13 a14 a15)
       :: bl, rest)
  | _ => ([], bs)
  end.

Definition state_of_bytes (bs : list byte) : option state :=
  match split_blocks bs with
  | ([s], []) => Some s
  | _ => None
  end.

(** *** CBC *)

Fixpoint cbc_encrypt (ks : list state) (prev : state) (bl : list state)
  : list state :=
  match bl with
  | [] => []
  | p :: r =>
      let c := Cipher ks (AddRoundKey prev p) in
      c :: cbc_encrypt ks c r
  end.

Fixpoint cbc_decrypt (ks : list state) (prev : state) (bl : list state)
  : list state :=
  match bl with
  | [] => []
  | c :: r => AddRoundKey prev (InvCipher ks c) :: cbc_decrypt ks c r
  end.

(** *** PKCS#7 padding *)

Definition pkcs7_pad (bs : list byte) : list byte :=
  let n := (16 - length bs mod 16)%nat in
  bs ++ repeat (byte_of_N (N.of_nat n)) n.

(** The check of [EVP_DecryptFinal]: the last byte [n] is between 1 and 16
    and the last [n] bytes all equal it. *)
Definition pkcs7_unpad (bs : list byte) : option (list byte) :=
  match rev bs with
  | [] => None
  | l :: _ =>
      let n := N.to_nat (Byte.to_N l) in
      if ((1 <=? n) && (n <=? 16) && (n <=? length bs))%nat
         && forallb (Byte.eqb l) (skipn (length bs - n) bs)
      then Some (firstn (length bs - n) bs)
      else None
  end.

(** *** [createCipheriv('aes-128-cbc', key, iv)] *)

Inductive CryptoError : Type :=
| InvalidKeyLength
| InvalidIV
| WrongFinalBlockLength
| BadDecrypt.

(** [cipher.update(data)] followed by [cipher.final()].  [createCipheriv]
    checks the length of the vector first ("Invalid initialization vector"),
    then the length of the key ("Invalid key length"). *)
Definition cipheriv_aes_128_cbc (key iv data : list byte)
  : result CryptoError (list byte) :=
  match state_of_bytes iv with
  | None => Throw InvalidIV
  | Some v =>
      match state_of_bytes key with
      | None => Throw InvalidKeyLength
      | Some k =>
          Ok (concat (map bytes_of_state
                (cbc_encrypt (KeyExpansion k) v
                   (fst (split_blocks (pkcs7_pad data))))))
      end
  end.

(** [decipher.update(data)] followed by [decipher.final()];
    [createDecipheriv] checks its arguments in the same order. *)
Definition decipheriv_aes_128_cbc (key iv data : list byte)
  : result CryptoError (list byte) :=
  match state_of_bytes iv with
  | None => Throw InvalidIV
  | Some v =>
      match state_of_bytes key with
      | None => Throw InvalidKeyLength
      | Some k =>
          match split_blocks data with
          | ((_ :: _) as bl, []) =>
              match pkcs7_unpad
                      (concat (map bytes_of_state
                         (cbc_decrypt (KeyExpansion k) v bl))) with
              | Some p => Ok p
              | None => Throw BadDecrypt
              end
          | _ => Throw WrongFinalBlockLength
          end
      end
  end.

End AES.

(** ** Node's [crypto]: the deprecated [createCipher('aes-128-ecb', password)] *)

Module EVP.

(** [EVP_BytesToKey] as [createCipher] calls it: MD5, no salt, one round.
    AES-128 in ECB mode takes 16 bytes of key and no vector, so the key is
    the digest of the password. *)
Definition bytes_to_key (password : list byte) : list byte :=
  firstn 16 (MD5.md5 password).

(** [cipher.update(data)] followed by [cipher.final()]. *)
Definition cipher_aes_128_ecb (password data : list byte)
  : result AES.CryptoError (list byte) :=
  match AES.state_of_bytes (bytes_to_key password) with
  | None => Throw AES.InvalidKeyLength
  | Some k =>
      Ok (concat (map AES.bytes_of_state
            (map (AES.Cipher (AES.KeyExpansion k))
               (fst (AES.split_blocks (AES.pkcs7_pad data))))))
  end.

(** [decipher.update(data)] followed by [decipher.final()]. *)
Definition decipher_aes_128_ecb (password data : list byte)
  : result AES.CryptoError (list byte) :=
  match AES.state_of_bytes (bytes_to_key password) with
  | None => Throw AES.InvalidKeyLength
  | Some k =>
      match AES.split_blocks data with
      | ((_ :: _) as bl, []) =>
          match AES.pkcs7_unpad
                  (concat (map AES.bytes_of_state
                     (map (AES.InvCipher (AES.KeyExpansion k)) bl))) with
          | Some p => Ok p
          | None => Throw AES.BadDecrypt
          end
      | _ => Throw AES.WrongFinalBlockLength
      end
  end.

End EVP.

(** ** Node's [path] (POSIX flavour) *)

Module Path.

Definition SLASH : N := 47.
Definition DOT : N := 46.

Definition sep : jsstring := [SLASH].

(** [str.slice(a, b)] for [0 <= a]. *)
Definition slice (s : jsstring) (a b : nat) : jsstring :=
  firstn (b - a) (skipn a s).

(** The variables of the loop of [extname]; [-1] is [None]. *)
Record ext_state : Type := {
  startDot : option nat;
  startPart : nat;
  end_ : option nat;
  matchedSlash : bool;
  preDotState : Z;
}.

(** The loop [for (i = path.length - 1; i >= 0; --i)], entered with
    [n = i + 1]. *)
Fixpoint extname_loop (path : jsstring) (n : nat) (st : ext_state) : ext_state :=
  match n with
  | O => st
  | S i =>
      let code := nth i path 0 in
      if code =? SLASH then
        if negb (matchedSlash st) then
          {| startDot := startDot st; startPart := (i + 1)%nat; end_ := end_ st;
             matchedSlash := matchedSlash st; preDotState := preDotState st |}
        else extname_loop path i st
      else
        let st1 :=
          match end_ st with
          | None =>
              {| startDot := startDot st; startPart := startPart st;
                 end_ := Some (i + 1)%nat; matchedSlash := false;
                 preDotState := preDotState st |}
          | Some _ => st
          end in
        let st2 :=
          if code =? DOT then
            match startDot st1 with
            | None =>
                {| startDot := Some i; startPart := startPart st1;
                   end_ := end_ st1; matchedSlash := matchedSlash st1;
                   preDotState := preDotState st1 |}
            | Some _ =>
                {| startDot := startDot st1; startPart := startPart st1;
                   end_ := end_ st1; matchedSlash := matchedSlash st1;
                   preDotState := 1%Z |}
            end
          else
            match startDot st1 with
            | Some _ =>
                {| startDot := startDot st1; startPart := startPart st1;
                   end_ := end_ st1; matchedSlash := matchedSlash st1;
                   preDotState := (-1)%Z |}
            | None => st1
            end in
        extname_loop path i st2
  end.

(** [path.extname]. *)
Definition extname (path : jsstring) : jsstring :=
  let st := extname_loop path (length path)
              {| startDot := None; startPart := 0%nat; end_ := None;
                 matchedSlash := true; preDotState := 0%Z |} in
  match startDot st, end_ st with
  | Some sd, Some e =>
      if (preDotState st =? 0)%Z
         || ((preDotState st =? 1)%Z && (sd =? e - 1)%nat
             && (sd =? startPart st + 1)%nat)
      then []
      else slice path sd e
  | _, _ => []
  end.

(** The loop of [basename] without a suffix: [(start, end, matchedSlash)]. *)
Fixpoint basename_loop (path : jsstring) (n : nat)
    (st : nat * option nat * bool) : nat * option nat * bool :=
  match n with
  | O => st
  | S i =>
      let '(start, e, matched) := st in
      if nth i path 0 =? SLASH then
        if negb matched then ((i + 1)%nat, e, matched)
        else basename_loop path i st
      else
        match e with
        | None => basename_loop path i (start, Some (i + 1)%nat, false)
        | Some _ => basename_loop path i st
        end
  end.

(** [path.basename(path)]. *)
Definition basename (path : jsstring) : jsstring :=
  let '(start, e, _) := basename_loop path (length path) (0%nat, None, true) in
  match e with
  | None => []
  | Some e => slice path start e
  end.

End Path.

(** ** [src/main/filesystem/markdown.js] *)

Module Markdown.
Import Buf.

(** *** The constants imported from [../config] *)

(** Modelled from the spec: [LF_LINE_ENDING_REG] is declared in
    [main/config], which is not among the sources.  The spec (4.2) has the
    detection look for "bare line-feed sequences not preceded by
    carriage-return": [test] holds when some LF has no CR right before it. *)
Fixpoint LF_LINE_ENDING_REG_from (prevCR : bool) (s : jsstring) : bool :=
  match s with
  | [] => false
  | c :: r =>
      if (c =? LF) && negb prevCR then true
      else LF_LINE_ENDING_REG_from (c =? CR) r
  end.

Definition LF_LINE_ENDING_REG_test (s : jsstring) : bool :=
  LF_LINE_ENDING_REG_from false s.

(** Modelled from the spec: [CRLF_LINE_ENDING_REG] is declared in
    [main/config], which is not among the sources.  The spec (4.2) has the
    detection look for "carriage-return-line-feed sequences": [test] holds
    when some CR is followed at once by LF. *)
Fixpoint CRLF_LINE_ENDING_REG_test (s : jsstring) : bool :=
  match s with
  | [] => false
  | c :: r =>
      match r with
      | d :: _ =>
          if (c =? CR) && (d =? LF) then true
          else CRLF_LINE_ENDING_REG_test r
      | [] => false
      end
  end.

(** Modelled from the spec: [LINE_ENDING_REG] is declared in [main/config],
    which is not among the sources.  It is the global pattern of
    [convertLineEndings], which the source uses in both directions: on load
    "all line endings are normalized to bare LF" and on save "every
    canonical LF" is replaced by the target sequence (4.2).  The line
    endings of the spec are LF and CRLF, so a match is a CRLF pair or a
    single LF; [text.replace(LINE_ENDING_REG, eol)] rewrites every match,
    left to right. *)
Fixpoint replace_LINE_ENDING_REG (text eol : jsstring) : jsstring :=
  match text with
  | [] => []
  | c :: r =>
      if c =? LF then eol ++ replace_LINE_ENDING_REG r eol
      else
        match r with
        | d :: r' =>
            if (c =? CR) && (d =? LF)
            then eol ++ replace_LINE_ENDING_REG r' eol
            else c :: replace_LINE_ENDING_REG r eol
        | [] => [c]
        end
  end.

(** *** The module *)

(** [normalizeMarkdownPath] is exported by the source but takes no part in
    a load or a save; it is left out.  [aesEncrypt] and [aesDecrypt], which
    have no caller either, are at the end of the module. *)

(** The fallback branch also logs an error. *)
Definition getLineEnding (lineEnding : jsstring) : jsstring :=
  if str_eqb lineEnding (js "lf") then [LF]
  else if str_eqb lineEnding (js "crlf") then [CR; LF]
  else [LF].

(** [crypto.createHash('md5').update('43214321md').digest('hex')] *)
Definition mm : jsstring :=
  Eval vm_compute in hex_encode (MD5.md5 (utf8_encode (js "43214321md"))).

Definition convertLineEndings (text lineEnding : jsstring) : jsstring :=
  replace_LINE_ENDING_REG text (getLineEnding lineEnding).

Definition aesEncryptiv (str key : jsstring)
  : result AES.CryptoError jsstring :=
  let keyBuffer := hex_decode key in
  let iv := keyBuffer in
  match AES.cipheriv_aes_128_cbc keyBuffer iv (utf8_encode str) with
  | Ok c => Ok (base64_encode c)
  | Throw e => Throw e
  end.

Definition aesDecryptiv (str key : jsstring)
  : result AES.CryptoError jsstring :=
  let keyBuffer := hex_decode key in
  let iv := keyBuffer in
  match AES.decipheriv_aes_128_cbc keyBuffer iv (base64_decode str) with
  | Ok p => Ok (utf8_decode p)
  | Throw e => Throw e
  end.

Record Encoding : Type := { encoding : jsstring; isBom : bool }.

(** [IMarkdownDocumentOptions], as far as [writeMarkdownFile] reads it. *)
Record Options : Type := {
  adjustLineEndingOnSave : bool;
  lineEnding : jsstring;
  options_encoding : Encoding;
}.

(** The call [writeFile(pathname, buffer, extension, undefined)] that ends
    [writeMarkdownFile]. *)
Record WriteFileCall : Type := {
  write_pathname : jsstring;
  write_buffer : list byte;
  write_extension : jsstring;
}.

Section Save.
(** [iconv.encode(content, encoding, { addBOM })] *)
Variable iconv_encode : jsstring -> jsstring -> bool -> list byte.

Definition writeMarkdownFile (pathname content : jsstring) (options : Options)
  : result AES.CryptoError WriteFileCall :=
  let extension :=
    match Path.extname pathname with
    | [] => js ".md"
    | e => e
    end in
  let content :=
    if adjustLineEndingOnSave options
    then convertLineEndings content (lineEnding options)
    else content in
  match (if str_eqb extension (js ".mde")
         then aesEncryptiv content mm
         else Ok content) with
  | Throw e => Throw e
  | Ok content =>
      Ok {| write_pathname := pathname;
            write_buffer :=
              iconv_encode content (encoding (options_encoding options))
                (isBom (options_encoding options));
            write_extension := extension |}
  end.
End Save.

(** [IMarkdownDocumentRaw]; the fields that [Options] has too carry the
    prefix [doc_]. *)
Record Document : Type := {
  markdown : jsstring;
  filename : jsstring;
  pathname : jsstring;
  doc_encoding : Encoding;
  doc_lineEnding : jsstring;
  doc_adjustLineEndingOnSave : bool;
  trimTrailingNewline : N;
  isMixedLineEndings : bool;
}.

Definition IoError : Type := jsstring.

Inductive LoadError : Type :=
| ReadFileError (e : IoError)
| EncodingNotSupported (name : jsstring).

(** What [loadMarkdownFile] calls outside this module. *)
Record LoadEnv : Type := {
  path_resolve : jsstring -> jsstring;
  readFile : jsstring -> result IoError (list byte);
  guessEncoding : list byte -> bool -> Encoding;
  encodingExists : jsstring -> bool;
  iconv_decode : list byte -> jsstring -> jsstring;
}.

(** [s[i] === '\n'] *)
Definition isLfAt (s : jsstring) (i : nat) : bool :=
  match nth_error s i with
  | Some c => c =? LF
  | None => false
  end.

(** The defaults of the source are [autoGuessEncoding = true] and
    [trimTrailingNewline = 2]. *)
Definition loadMarkdownFile (env : LoadEnv) (pathname preferredEol : jsstring)
    (autoGuessEncoding : bool) (trimTrailingNewline : N)
  : result LoadError Document :=
  match readFile env (path_resolve env pathname) with
  | Throw e => Throw (ReadFileError e)
  | Ok buffer =>
      let encoding := guessEncoding env buffer autoGuessEncoding in
      let supported := encodingExists env (Markdown.encoding encoding) in
      if negb supported then
        Throw (EncodingNotSupported (Markdown.encoding encoding))
      else
        let markdown := iconv_decode env buffer (Markdown.encoding encoding) in
        (* try { ... } catch (err) { } *)
        let markdown :=
          match (if endsWith pathname (js ".mde")
                 then aesDecryptiv markdown mm
                 else Ok markdown) with
          | Ok m => m
          | Throw _ => markdown
          end in
        (* Detect line ending *)
        let isLf := LF_LINE_ENDING_REG_test markdown in
        let isCrlf := CRLF_LINE_ENDING_REG_test markdown in
        let isMixedLineEndings := isLf && isCrlf in
        let isUnknownEnding := negb isLf && negb isCrlf in
        let lineEnding :=
          if isLf && negb isCrlf then js "lf"
          else if isCrlf && negb isLf then js "crlf"
          else preferredEol in
        let notLf := negb (str_eqb lineEnding (js "lf")) in
        let '(adjustLineEndingOnSave, markdown) :=
          if isMixedLineEndings || isUnknownEnding || notLf
          then (notLf, convertLineEndings markdown (js "lf"))
          else (false, markdown) in
        (* Detect final newline *)
        let trimTrailingNewline :=
          if trimTrailingNewline =? 2 then
            match markdown with
            | [] => 3
            | _ :: _ =>
                let lastIndex := (length markdown - 1)%nat in
                if (1 <=? lastIndex)%nat && isLfAt markdown lastIndex
                   && isLfAt markdown (lastIndex - 1)
                then 2
                else if isLfAt markdown lastIndex then 1
                else 0
            end
          else trimTrailingNewline in
        let filename := Path.basename pathname in
        Ok {| markdown := markdown;
              filename := filename;
              pathname := pathname;
              doc_encoding := encoding;
              doc_lineEnding := lineEnding;
              doc_adjustLineEndingOnSave := adjustLineEndingOnSave;
              trimTrailingNewline := trimTrailingNewline;
              isMixedLineEndings := isMixedLineEndings |}
  end.

(** [aesEncrypt]: the password is the UTF-8 text of [key]. *)
Definition aesEncrypt (str key : jsstring) : result AES.CryptoError jsstring :=
  match EVP.cipher_aes_128_ecb (utf8_encode key) (utf8_encode str) with
  | Ok c => Ok (base64_encode c)
  | Throw e => Throw e
  end.

Definition aesDecrypt (str key : jsstring) : result AES.CryptoError jsstring :=
  match EVP.decipher_aes_128_ecb (utf8_encode key) (base64_decode str) with
  | Ok p => Ok (utf8_decode p)
  | Throw e => Throw e
  end.

End Markdown.

(** ** Regular expressions *)

(** The fragment of the pattern language that [file.js] uses: a sequence of
    one-character atoms, each with a quantifier, matched by backtracking in
    the order ECMAScript prescribes. *)
Module RegExp.

Inductive atom : Type :=
| Chr (c : N)      (** a literal character *)
| Dot.             (** [.]: anything but a line terminator *)

Inductive quantifier : Type :=
| Once
| StarLazy         (** [*?] *)
| PlusGreedy       (** [+] *)
| PlusLazy.        (** [+?] *)

Definition regex : Type := list (atom * quantifier).

Definition is_line_terminator (c : N) : bool :=
  (c =? 0x0A) || (c =? 0x0D) || (c =? 0x2028) || (c =? 0x2029).

Definition atom_matches (a : atom) (c : N) : bool :=
  match a with
  | Chr x => c =? x
  | Dot => negb (is_line_terminator c)
  end.

(** [a*?] then the continuation [k]: the shortest repetition first. *)
Fixpoint star_lazy (k : jsstring -> option jsstring) (a : atom) (s : jsstring)
  : option jsstring :=
  match k s with
  | Some t => Some t
  | None =>
      match s with
      | x :: s' => if atom_matches a x then star_lazy k a s' else None
      | [] => None
      end
  end.

(** [a*] then the continuation [k]: the longest repetition first. *)
Fixpoint star_greedy (k : jsstring -> option jsstring) (a : atom) (s : jsstring)
  : option jsstring :=
  match s with
  | x :: s' =>
      if atom_matches a x then
        match star_greedy k a s' with
        | Some t => Some t
        | None => k s
        end
      else k s
  | [] => k s
  end.

(** A match of [r] at the start of [s]: what is left of [s] after it. *)
Fixpoint match_here (r : regex) (s : jsstring) {struct r} : option jsstring :=
  match r with
  | [] => Some s
  | (a, q) :: r' =>
      match q with
      | Once =>
          match s with
          | x :: s' => if atom_matches a x then match_here r' s' else None
          | [] => None
          end
      | StarLazy => star_lazy (match_here r') a s
      | PlusGreedy =>
          match s with
          | x :: s' =>
              if atom_matches a x then star_greedy (match_here r') a s' else None
          | [] => None
          end
      | PlusLazy =>
          match s with
          | x :: s' =>
              if atom_matches a x then star_lazy (match_here r') a s' else None
          | [] => None
          end
      end
  end.

(** The loop of a global match: the leftmost match from the current
    position, then on from its end (one further after an empty match). *)
Fixpoint match_all (fuel : nat) (r : regex) (s : jsstring) : list jsstring :=
  match fuel with
  | O => []
  | S fuel' =>
      match match_here r s with
      | Some rest =>
          let m := firstn (length s - length rest) s in
          m :: match m, s with
               | _ :: _, _ => match_all fuel' r rest
               | [], _ :: s' => match_all fuel' r s'
               | [], [] => []
               end
      | None =>
          match s with
          | _ :: s' => match_all fuel' r s'
          | [] => []
          end
      end
  end.

(** [str.match(/r/g)]; the empty list stands for [null]. *)
Definition match_g (r : regex) (s : jsstring) : list jsstring :=
  match_all (S (length s)) r s.

Definition lit (s : jsstring) : regex := map (fun c => (Chr c, Once)) s.

End RegExp.

(** ** [decodeURI] (ECMA-262, Decode) *)

Module URI.

Definition PERCENT : N := 37.

Inductive URIError : Type := URIMalformed.

Definition uriReserved : jsstring := js ";/?:@&=+$,#".

Definition contains (set : jsstring) (c : N) : bool := existsb (N.eqb c) set.

(** [%XY] at the head of [s]: the octet and what follows. *)
Definition parse_escape (s : jsstring) : option (N * jsstring) :=
  match s with
  | p :: h1 :: h2 :: r =>
      if p =? PERCENT then
        match Buf.hex_digit h1, Buf.hex_digit h2 with
        | Some a, Some b => Some (16 * a + b, r)
        | _, _ => None
        end
      else None
  | _ => None
  end.

Fixpoint parse_escapes (n : nat) (s : jsstring) : option (list N * jsstring) :=
  match n with
  | O => Some ([], s)
  | S n' =>
      match parse_escape s with
      | Some (b, r) =>
          match parse_escapes n' r with
          | Some (bs, r') => Some (b :: bs, r')
          | None => None
          end
      | None => None
      end
  end.

(** Number of leading 1 bits of an octet. *)
Definition leading_ones (b : N) : nat :=
  if b <? 0x80 then 0
  else if b <? 0xC0 then 1
  else if b <? 0xE0 then 2
  else if b <? 0xF0 then 3
  else if b <? 0xF8 then 4
  else 5.

Definition is_continuation (b : N) : bool := (0x80 <=? b) && (b <? 0xC0).

(** The code point of a well-formed UTF-8 sequence of 2 to 4 octets. *)
Definition utf8_code_point (octets : list N) : option N :=
  match octets with
  | [a; b] =>
      let v := (a mod 32) * 64 + b mod 64 in
      if is_continuation b && (0x80 <=? v) then Some v else None
  | [a; b; c] =>
      let v := ((a mod 16) * 64 + b mod 64) * 64 + c mod 64 in
      if is_continuation b && is_continuation c && (0x800 <=? v)
         && negb ((0xD800 <=? v) && (v <=? 0xDFFF))
      then Some v else None
  | [a; b; c; d] =>
      let v := (((a mod 8) * 64 + b mod 64) * 64 + c mod 64) * 64 + d mod 64 in
      if is_continuation b && is_continuation c && is_continuation d
         && (0x10000 <=? v) && (v <=? 0x10FFFF)
      then Some v else None
  | _ => None
  end.

Fixpoint Decode (fuel : nat) (preserveEscapeSet s : jsstring)
  : result URIError jsstring :=
  match fuel, s with
  | _, [] => Ok []
  | O, _ :: _ => Ok []
  | S fuel', c :: r =>
      if c =? PERCENT then
        match parse_escape s with
        | None => Throw URIMalformed
        | Some (B, r1) =>
            match leading_ones B with
            | O =>
                match Decode fuel' preserveEscapeSet r1 with
                | Ok R =>
                    Ok ((if contains preserveEscapeSet B
                         then firstn 3 s else [B]) ++ R)
                | Throw e => Throw e
                end
            | S n' =>
                if ((n' =? 0) || (4 <=? n'))%nat then Throw URIMalformed
                else
                  match parse_escapes n' r1 with
                  | None => Throw URIMalformed
                  | Some (octets, r2) =>
                      match utf8_code_point (B :: octets) with
                      | None => Throw URIMalformed
                      | Some V =>
                          match Decode fuel' preserveEscapeSet r2 with
                          | Ok R => Ok (Buf.utf16_of_code_point V ++ R)
                          | Throw e => Throw e
                          end
                      end
                  end
            end
        end
      else
        match Decode fuel' preserveEscapeSet r with
        | Ok R => Ok (c :: R)
        | Throw e => Throw e
        end
  end.

Definition decodeURI (s : jsstring) : result URIError jsstring :=
  Decode (length s) uriReserved s.

End URI.

(** ** [src/main/menu/actions/file.js]: the check for unused images *)

Module FileActions.
Import RegExp.

(** [/\[.*?\]\(.+\)/] *)
Definition imgMark_reg : regex :=
  [(Chr 91, Once); (Dot, StarLazy); (Chr 93, Once);
   (Chr 40, Once); (Dot, PlusGreedy); (Chr 41, Once)].

(** [/ src.+?".+?"/] *)
Definition imgHtml_reg : regex :=
  lit (js " src")
  ++ [(Dot, PlusLazy); (Chr DQUOTE, Once); (Dot, PlusLazy); (Chr DQUOTE, Once)].

(** [imgMark.forEach(e => imgRow.push(decodeURI(e)))]: the first
    [URIError] ends the loop and the function. *)
Fixpoint push_decoded (imgRow : list jsstring) (es : list jsstring)
  : result URI.URIError (list jsstring) :=
  match es with
  | [] => Ok imgRow
  | e :: es' =>
      match URI.decodeURI e with
      | Ok d => push_decoded (imgRow ++ [d]) es'
      | Throw err => Throw err
      end
  end.

Definition getRelativeImgPathFromMarkdown (markdown : jsstring)
  : result URI.URIError (list jsstring) :=
  let imgRow := [] in
  let imgMark := match_g imgMark_reg markdown in
  let imgHtml := match_g imgHtml_reg markdown in
  let imgMark := imgMark ++ imgHtml in
  push_decoded imgRow imgMark.

(** The part of [fs] that the collector reads. *)
Record FsEnv : Type := {
  existsSync : jsstring -> bool;
  readdirSync : jsstring -> result Markdown.IoError (list jsstring);
}.

Inductive CheckError : Type :=
| UriError (e : URI.URIError)
| FsError (e : Markdown.IoError).

(** The inner [imgRow.forEach]: the final value of [ifhas]. *)
Definition ifhas_after (imgRow : list jsstring) (dirFile : jsstring) : bool :=
  fold_left
    (fun ifhas onePath =>
       match indexOf onePath dirFile with
       | Some _ => true
       | None => ifhas
       end)
    imgRow false.

(** The outer [dirFiles.forEach]: the final value of [notNeedFiles]. *)
Definition notNeedFiles_after (dir : jsstring) (imgRow dirFiles : list jsstring)
  : list jsstring :=
  fold_left
    (fun notNeedFiles dirFile =>
       if negb (ifhas_after imgRow dirFile)
       then notNeedFiles ++ [dir ++ Path.sep ++ dirFile]
       else notNeedFiles)
    dirFiles [].

(** The asset directory of a document:
    [filePath.replace('.mde', '.assets').replace('.md', '.assets')]. *)
Definition assetDir (filePath : jsstring) : jsstring :=
  replaceFirst (replaceFirst filePath (js ".mde") (js ".assets"))
    (js ".md") (js ".assets").

(** [checkImgAndDelete] from its second statement on, [imgRow] being the
    value of its first: the list handed to [tryDelete], or [None] when the
    function returns without calling it. *)
Definition collect (fs : FsEnv) (filePath : jsstring) (imgRow : list jsstring)
  : result CheckError (option (list jsstring)) :=
  let dir := assetDir filePath in
  let hasDir := existsSync fs dir in
  if hasDir && (length imgRow =? 0)%nat then Ok (Some [dir])
  else if negb hasDir then Ok None
  else
    match readdirSync fs dir with
    | Throw e => Throw (FsError e)
    | Ok dirFiles => Ok (Some (notNeedFiles_after dir imgRow dirFiles))
    end.

Definition checkImgAndDelete (fs : FsEnv) (filePath markdown : jsstring)
  : result CheckError (option (list jsstring)) :=
  match getRelativeImgPathFromMarkdown markdown with
  | Throw e => Throw (UriError e)
  | Ok imgRow => collect fs filePath imgRow
  end.

(** What [tryDelete] calls: the button chosen in the message box of
    [showIfDeleteMessage] (which lists the files), and [shell.trashItem],
    which resolves or rejects with a message. *)
Record TrashEnv : Type := {
  showMessageBox_response : list jsstring -> N;
  trashItem : jsstring -> result jsstring unit;
}.

Definition showIfDeleteMessage (env : TrashEnv) (files : list jsstring) : bool :=
  match showMessageBox_response env files with
  | 0 => true
  | 1 => false
  | _ => false
  end.

(** What [tryDelete] does: the files it asks about (if it asks), the paths
    it hands to [shell.trashItem], in this order, and the notifications sent
    by the [catch] of each call (they arrive later, in no fixed order; they
    are listed by path). *)
Record DeleteEffects : Type := {
  asked : option (list jsstring);
  trashed : list jsstring;
  notifications : list jsstring;
}.

Definition no_effects : DeleteEffects :=
  {| asked := None; trashed := []; notifications := [] |}.

(** [err.message + ':\n' + path] *)
Definition trash_failure_message (message path : jsstring) : jsstring :=
  message ++ js ":" ++ [LF] ++ path.

(** [paths] may be [null]. *)
Definition tryDelete (env : TrashEnv) (paths : option (list jsstring))
  : DeleteEffects :=
  match paths with
  | None => no_effects
  | Some paths =>
      if (0 <? length paths)%nat then
        if showIfDeleteMessage env paths then
          {| asked := Some paths;
             trashed := paths;
             notifications :=
               flat_map
                 (fun path =>
                    match trashItem env path with
                    | Ok _ => []
                    | Throw message => [trash_failure_message message path]
                    end)
                 paths |}
        else {| asked := Some paths; trashed := []; notifications := [] |}
      else no_effects
  end.

(** [checkImgAndDelete] with the effects of its call of [tryDelete]. *)
Definition checkImgAndDelete_effects (fs : FsEnv) (env : TrashEnv)
    (filePath markdown : jsstring) : result CheckError DeleteEffects :=
  match checkImgAndDelete fs filePath markdown with
  | Throw e => Throw e
  | Ok None => Ok no_effects
  | Ok (Some paths) => Ok (tryDelete env (Some paths))
  end.

End FileActions.

(** ** Vocabulary of the statements *)

Module Terms.
Import Markdown.

(** [a] occurs in [s]. *)
Definition substring (a s : jsstring) : Prop :=
  exists pre post, s = pre ++ a ++ post.

(** [onePath.indexOf(dirFile) > -1] *)
Definition occurs_in (dirFile onePath : jsstring) : bool :=
  match indexOf onePath dirFile with
  | Some _ => true
  | None => false
  end.

(** Every carriage return is followed at once by a line feed. *)
Fixpoint crs_paired (s : jsstring) : bool :=
  match s with
  | [] => true
  | c :: r =>
      if c =? CR then
        match r with
        | d :: _ => (d =? LF) && crs_paired r
        | [] => false
        end
      else crs_paired r
  end.

(** The text that [loadMarkdownFile] holds when it starts to detect the
    line endings (line 102): the decoded buffer, after the attempt to
    decrypt it. *)
Definition decodedText (env : LoadEnv) (autoGuessEncoding : bool)
    (buffer : list byte) : jsstring :=
  iconv_decode env buffer
    (encoding (guessEncoding env buffer autoGuessEncoding)).

Definition sourceText (env : LoadEnv) (pathname : jsstring)
    (autoGuessEncoding : bool) (buffer : list byte) : jsstring :=
  let decoded := decodedText env autoGuessEncoding buffer in
  match (if endsWith pathname (js ".mde")
         then aesDecryptiv decoded mm
         else Ok decoded) with
  | Ok m => m
  | Throw _ => decoded
  end.

(** The value that lines 122 to 139 give to [trimTrailingNewline] when it
    comes in as 2. *)
Definition finalNewlineCode (m : jsstring) : N :=
  match m with
  | [] => 3
  | _ :: _ =>
      let lastIndex := (length m - 1)%nat in
      if (1 <=? lastIndex)%nat && isLfAt m lastIndex
         && isLfAt m (lastIndex - 1)
      then 2
      else if isLfAt m lastIndex then 1
      else 0
  end.

(** Modelled from the spec: the code that reads [trimTrailingNewline] back
    on save is not among the sources.  The spec (3, 4.3) names three
    policies; the source comments the values as "Trim trailing newlines" (0),
    "Ensure single trailing newline" (1), "Disabled" (2) and "Use default
    value" (3), and the spec calls the result for empty content, 3,
    "disabled" as well. *)
Inductive TrailingNewlinePolicy : Type := disabled | ensureSingle | trimAll.

Definition policy_of_code (n : N) : option TrailingNewlinePolicy :=
  match n with
  | 0 => Some trimAll
  | 1 => Some ensureSingle
  | 2 | 3 => Some disabled
  | _ => None
  end.

(** A file system of one file, read as UTF-8. *)
Definition utf8Encoding : Encoding :=
  {| encoding := js "utf8"; isBom := false |}.

Definition oneFileEnv (content : list byte) : LoadEnv :=
  {| path_resolve := fun p => p;
     readFile := fun _ => Ok content;
     guessEncoding := fun _ _ => utf8Encoding;
     encodingExists := fun _ => true;
     iconv_decode := fun b _ => Buf.utf8_decode b |}.

(** An asset directory that exists, with the given entries. *)
Definition dirEnv (entries : list jsstring) : FileActions.FsEnv :=
  {| FileActions.existsSync := fun _ => true;
     FileActions.readdirSync := fun _ => Ok entries |}.

(** The asset directory as the spec words it: the pathname without the
    extension of the document, followed by [.assets]. *)
Definition assetDir_spec (filePath : jsstring) : jsstring :=
  firstn (length filePath - length (Path.extname filePath)) filePath
  ++ js ".assets".

(** A string without unpaired surrogates (and of 16-bit code units). *)
Fixpoint well_formed (s : jsstring) : bool :=
  match s with
  | [] => true
  | u :: r =>
      if Buf.is_high_surrogate u then
        match r with
        | v :: r' => Buf.is_low_surrogate v && well_formed r'
        | [] => false
        end
      else (u <? 0x10000) && negb (Buf.is_low_surrogate u) && well_formed r
  end.

(** A string of 16-bit code units, as every JavaScript string is. *)
Definition code_units (s : jsstring) : bool :=
  forallb (fun u => u <? 0x10000) s.

(** [String.prototype.toWellFormed]: the string with every surrogate that
    stands alone replaced by U+FFFD. *)
Fixpoint toWellFormed (s : jsstring) : jsstring :=
  match s with
  | [] => []
  | u :: r =>
      if Buf.is_high_surrogate u then
        match r with
        | v :: r' =>
            if Buf.is_low_surrogate v then u :: v :: toWellFormed r'
            else 0xFFFD :: toWellFormed r
        | [] => [0xFFFD]
        end
      else if Buf.is_low_surrogate u then 0xFFFD :: toWellFormed r
      else u :: toWellFormed r
  end.

(** The input of the scanner in the spec's example:
    [![x](a.png) <img src="b.png">]. *)
Definition scanner_example : jsstring :=
  js "![x](a.png) <img src=" ++ [DQUOTE] ++ js "b.png" ++ [DQUOTE] ++ js ">".

(** The text of a save after line 63, before the encryption. *)
Definition adjusted (content : jsstring) (options : Options) : jsstring :=
  if adjustLineEndingOnSave options
  then convertLineEndings content (lineEnding options)
  else content.

(** The text that [writeMarkdownFile] hands to [iconv.encode] (the value of
    [content] at line 67). *)
Definition savedText (pathname content : jsstring) (options : Options)
  : result AES.CryptoError jsstring :=
  let extension :=
    match Path.extname pathname with
    | [] => js ".md"
    | e => e
    end in
  let content :=
    if adjustLineEndingOnSave options
    then convertLineEndings content (lineEnding options)
    else content in
  if str_eqb extension (js ".mde") then aesEncryptiv content mm else Ok content.

(** The options with which a loaded document is saved again. *)
Definition options_of (doc : Document) : Options :=
  {| adjustLineEndingOnSave := doc_adjustLineEndingOnSave doc;
     lineEnding := doc_lineEnding doc;
     options_encoding := doc_encoding doc |}.

(** Line endings of one kind: no carriage return at all, or every line feed
    after a carriage return and every carriage return before a line feed. *)
Definition uniform_line_endings (s : jsstring) : Prop :=
  ~ In CR s
  \/ (crs_paired s = true /\ LF_LINE_ENDING_REG_test s = false).

(** A file system that holds one file, and an [iconv] for UTF-8. *)
Definition utf8_iconv_encode (text _ : jsstring) (_ : bool) : list byte :=
  Buf.utf8_encode text.

(** [shell.trashItem] fails on the listed paths. *)
Definition trashEnv (response : N) (failing : list jsstring)
  : FileActions.TrashEnv :=
  {| FileActions.showMessageBox_response := fun _ => response;
     FileActions.trashItem :=
       fun p => if existsb (str_eqb p) failing
                then Throw (js "EPERM") else Ok tt |}.

End Terms.

(* ================================================================== *)
(** * Part II: properties                                              *)
(* ================================================================== *)

(** ** The run-time models against known values *)

Section KnownValues.
Import Buf.

(** RFC 1321, appendix A.5. *)
Example md5_empty :
  hex_encode (MD5.md5 []) = js "d41d8cd98f00b204e9800998ecf8427e".
Proof. vm_compute. reflexivity. Qed.

Example md5_abc :
  hex_encode (MD5.md5 (utf8_encode (js "abc")))
  = js "900150983cd24fb0d6963f7d28e17f72".
Proof. vm_compute. reflexivity. Qed.

Example mm_value : Markdown.mm = js "157016ad77a8f12fe276db44226b352e".
Proof. reflexivity. Qed.

(** FIPS 197, appendix C.1. *)
Example aes128_fips197_C1 :
  option_map
    (fun k =>
       option_map
         (fun p =>
            hex_encode (AES.bytes_of_state (AES.Cipher (AES.KeyExpansion k) p)))
         (AES.state_of_bytes (hex_decode (js "00112233445566778899aabbccddeeff"))))
    (AES.state_of_bytes (hex_decode (js "000102030405060708090a0b0c0d0e0f")))
  = Some (Some (js "69c4e0d86a7b0430d8cdb78070b4c55a")).
Proof. vm_compute. reflexivity. Qed.

(** RFC 4648, section 10. *)
Example base64_foobar :
  base64_encode (utf8_encode (js "foobar")) = js "Zm9vYmFy"
  /\ base64_encode (utf8_encode (js "fooba")) = js "Zm9vYmE="
  /\ base64_encode (utf8_encode (js "foob")) = js "Zm9vYg=="
  /\ base64_decode (js "Zm9vYg==") = utf8_encode (js "foob").
Proof. repeat split; vm_compute; reflexivity. Qed.

(** U+1F600, U+20AC and U+00E9. *)
Example utf8_samples :
  hex_encode (utf8_encode [0xD83D; 0xDE00; 0x20AC; 0xE9])
  = js "f09f9880e282acc3a9".
Proof. vm_compute. reflexivity. Qed.

(** The examples of the documentation of [path.extname] and
    [path.basename]. *)
Example extname_samples :
  Path.extname (js "index.html") = js ".html"
  /\ Path.extname (js "index.coffee.md") = js ".md"
  /\ Path.extname (js "index.") = js "."
  /\ Path.extname (js "index") = []
  /\ Path.extname (js ".index") = []
  /\ Path.extname (js ".index.md") = js ".md".
Proof. repeat split; vm_compute; reflexivity. Qed.

Example basename_sample :
  Path.basename (js "/foo/bar/baz/asdf/quux.html") = js "quux.html".
Proof. vm_compute. reflexivity. Qed.

(** [%E2%82%AC] is the euro sign; the escape of a reserved character is
    kept; a lone [%] is malformed. *)
Example decodeURI_samples :
  URI.decodeURI (js "a%20b%E2%82%AC") = Ok (js "a b" ++ [0x20AC])
  /\ URI.decodeURI (js "a%2Fb") = Ok (js "a%2Fb")
  /\ URI.decodeURI (js "100%") = Throw URI.URIMalformed.
Proof. repeat split; vm_compute; reflexivity. Qed.

(** The first pattern of the scanner is greedy: two links on a line make
    one match. *)
Example imgMark_reg_is_greedy :
  RegExp.match_g FileActions.imgMark_reg (js "[a](b) and [c](d)")
  = [js "[a](b) and [c](d)"].
Proof. vm_compute. reflexivity. Qed.

End KnownValues.

(** Linear arithmetic with division and modulo by constants. *)
Ltac lia_div := zify; Z.to_euclidean_division_equations; lia.

Ltac cmp_true t :=
  replace t with true
    by (symmetry; first [apply N.ltb_lt | apply N.leb_le | apply N.eqb_eq]; lia_div).
Ltac cmp_false t :=
  replace t with false
    by (symmetry; first [apply N.ltb_ge | apply N.leb_gt | apply N.eqb_neq]; lia_div).
Ltac resolve_cmp :=
  repeat match goal with
    | |- context [N.ltb ?a ?b] => first [cmp_true (N.ltb a b) | cmp_false (N.ltb a b)]
    | |- context [N.leb ?a ?b] => first [cmp_true (N.leb a b) | cmp_false (N.leb a b)]
    | |- context [N.eqb ?a ?b] => first [cmp_true (N.eqb a b) | cmp_false (N.eqb a b)]
    end;
  cbn [andb orb negb].

(** ** Strings *)

Lemma eqb_LF_CR : (LF =? CR) = false.
Proof. reflexivity. Qed.

Lemma eqb_LF_CR_sym : (CR =? LF) = false.
Proof. reflexivity. Qed.

Lemma str_eqb_eq (a b : jsstring) : str_eqb a b = true <-> a = b.
Proof.
  revert b; induction a as [|x a IH]; intros [|y b]; simpl; split; intro H;
    try reflexivity; try discriminate.
  - apply andb_true_iff in H as [Hxy Hab].
    apply N.eqb_eq in Hxy. apply IH in Hab. congruence.
  - injection H as -> ->. rewrite N.eqb_refl. simpl. now apply IH.
Qed.

Lemma startsWith_app (a t : jsstring) : startsWith (a ++ t) a = true.
Proof.
  induction a as [|x a IH]; simpl; [reflexivity|].
  now rewrite N.eqb_refl.
Qed.

Lemma startsWith_inv (s a : jsstring) :
  startsWith s a = true -> exists t, s = a ++ t.
Proof.
  revert s; induction a as [|x a IH]; intros s H.
  - now exists s.
  - destruct s as [|y s]; simpl in H; [discriminate|].
    apply andb_true_iff in H as [Hxy Hs].
    apply N.eqb_eq in Hxy. destruct (IH _ Hs) as [t ->].
    exists t. simpl. congruence.
Qed.

Lemma indexOf_Some (s a : jsstring) (i : nat) :
  indexOf s a = Some i -> exists post, s = firstn i s ++ a ++ post.
Proof.
  revert i; induction s as [|c s IH]; intros i H.
  - simpl in H. destruct (startsWith [] a) eqn:E; [|discriminate].
    injection H as <-. destruct (startsWith_inv _ _ E) as [t Ht].
    exists t. exact Ht.
  - simpl in H. destruct (startsWith (c :: s) a) eqn:E.
    + injection H as <-. destruct (startsWith_inv _ _ E) as [t Ht].
      exists t. exact Ht.
    + destruct (indexOf s a) as [j|] eqn:Ej; [|discriminate].
      injection H as <-. destruct (IH j eq_refl) as [post Hp].
      exists post. simpl. now rewrite <- Hp.
Qed.

Lemma indexOf_None (s a : jsstring) :
  indexOf s a = None -> ~ Terms.substring a s.
Proof.
  induction s as [|c s IH]; intros H [pre [post E]].
  - simpl in H. destruct (startsWith [] a) eqn:Es; [discriminate|].
    destruct pre; [|discriminate]. simpl in E. rewrite E in Es.
    now rewrite startsWith_app in Es.
  - simpl in H. destruct (startsWith (c :: s) a) eqn:Es; [discriminate|].
    destruct (indexOf s a) eqn:Ei; [discriminate|].
    destruct pre as [|p pre].
    + simpl in E. rewrite E in Es. now rewrite startsWith_app in Es.
    + injection E as _ E. apply (IH eq_refl). now exists pre, post.
Qed.

(** [onePath.indexOf(dirFile) > -1] decides the occurrence of [dirFile] in
    [onePath]. *)
Lemma indexOf_substring (s a : jsstring) :
  (exists i, indexOf s a = Some i) <-> Terms.substring a s.
Proof.
  split.
  - intros [i H]. destruct (indexOf_Some _ _ _ H) as [post E].
    now exists (firstn i s), post.
  - intro H. destruct (indexOf s a) as [i|] eqn:E; [now exists i|].
    now apply indexOf_None in E.
Qed.

(** ** Line endings *)

(** Induction on a list, two elements at a time. *)
Lemma list_ind2 {A : Type} (P : list A -> Prop) :
  P [] -> (forall x, P [x]) ->
  (forall x y l, P l -> P (y :: l) -> P (x :: y :: l)) ->
  forall l, P l.
Proof.
  intros H0 H1 H2 l.
  assert (H : P l /\ forall x, P (x :: l)); [|exact (proj1 H)].
  induction l as [|y l [IH1 IH2]]; split; auto.
Qed.

Lemma replace_LINE_ENDING_REG_no_CRLF (s : jsstring) :
  Markdown.CRLF_LINE_ENDING_REG_test s = false ->
  Markdown.replace_LINE_ENDING_REG s [LF] = s.
Proof.
  induction s as [|c r IH]; [reflexivity|].
  intro H. cbn [Markdown.replace_LINE_ENDING_REG].
  destruct (c =? LF) eqn:Ec.
  - apply N.eqb_eq in Ec. subst c. simpl. f_equal. apply IH.
    destruct r as [|d r']; [reflexivity|].
    simpl in H. exact H.
  - destruct r as [|d r']; [reflexivity|].
    cbn [Markdown.CRLF_LINE_ENDING_REG_test] in H.
    destruct ((c =? CR) && (d =? LF)); [discriminate|].
    f_equal. now apply IH.
Qed.

Lemma replace_LINE_ENDING_REG_no_CR (s : jsstring) :
  Terms.crs_paired s = true ->
  ~ In CR (Markdown.replace_LINE_ENDING_REG s [LF]).
Proof.
  induction s as [| x | x y l IHl IHyl] using list_ind2.
  - simpl. tauto.
  - simpl. destruct (x =? CR) eqn:Ex; [discriminate|]. intros _.
    destruct (x =? LF) eqn:El; simpl.
    + intros [H|[]]. discriminate.
    + intros [H|[]]. subst x. discriminate.
  - intro H. cbn [Terms.crs_paired] in H.
    cbn [Markdown.replace_LINE_ENDING_REG].
    destruct (x =? CR) eqn:Ex.
    + apply N.eqb_eq in Ex. subst x.
      apply andb_true_iff in H as [Hy Hyl].
      rewrite eqb_LF_CR_sym, Hy. simpl.
      intros [E|Hin]; [discriminate|].
      apply N.eqb_eq in Hy. subst y.
      cbn [Terms.crs_paired] in Hyl. rewrite eqb_LF_CR in Hyl.
      now apply IHl.
    + simpl. destruct (x =? LF) eqn:El.
      * simpl. intros [E|Hin]; [discriminate|]. now apply IHyl.
      * intros [E|Hin].
        -- subst x. discriminate.
        -- now apply IHyl.
Qed.

(** ** [loadMarkdownFile] *)

Section Load.
Import Markdown Terms.

Lemma convertLineEndings_lf (s : jsstring) :
  convertLineEndings s (js "lf") = replace_LINE_ENDING_REG s [LF].
Proof. reflexivity. Qed.

(** What a successful load returns, field by field. *)
Lemma loadMarkdownFile_inv env pathname preferredEol autoGuess trim doc :
  loadMarkdownFile env pathname preferredEol autoGuess trim = Ok doc ->
  exists buffer,
    readFile env (path_resolve env pathname) = Ok buffer /\
    encodingExists env (encoding (guessEncoding env buffer autoGuess)) = true /\
    let src := sourceText env pathname autoGuess buffer in
    let isLf := LF_LINE_ENDING_REG_test src in
    let isCrlf := CRLF_LINE_ENDING_REG_test src in
    markdown doc = replace_LINE_ENDING_REG src [LF] /\
    isMixedLineEndings doc = isLf && isCrlf /\
    doc_lineEnding doc =
      (if isLf && negb isCrlf then js "lf"
       else if isCrlf && negb isLf then js "crlf" else preferredEol) /\
    doc_adjustLineEndingOnSave doc
      = negb (str_eqb (doc_lineEnding doc) (js "lf")) /\
    trimTrailingNewline doc =
      (if trim =? 2 then finalNewlineCode (markdown doc) else trim).
Proof.
  unfold loadMarkdownFile. intro H.
  destruct (readFile env (path_resolve env pathname)) as [buffer|] eqn:Hread;
    [|discriminate].
  exists buffer. split; [reflexivity|].
  destruct (encodingExists env (encoding (guessEncoding env buffer autoGuess)))
    eqn:Hsup; [|discriminate].
  split; [reflexivity|].
  cbn [negb] in H. cbv zeta in H |- *.
  change (match (if endsWith pathname (js ".mde")
                 then aesDecryptiv
                        (iconv_decode env buffer
                           (encoding (guessEncoding env buffer autoGuess))) mm
                 else Ok (iconv_decode env buffer
                            (encoding (guessEncoding env buffer autoGuess))))
          with
          | Ok m => m
          | Throw _ =>
              iconv_decode env buffer
                (encoding (guessEncoding env buffer autoGuess))
          end)
    with (sourceText env pathname autoGuess buffer) in H.
  set (src := sourceText env pathname autoGuess buffer) in *.
  rewrite convertLineEndings_lf in H.
  destruct (LF_LINE_ENDING_REG_test src) eqn:Elf;
    destruct (CRLF_LINE_ENDING_REG_test src) eqn:Ecrlf;
    cbn [andb negb orb] in H |- *.
  - injection H as <-. repeat split.
  - change (str_eqb (js "lf") (js "lf")) with true in H. cbn [negb] in H.
    injection H as <-.
    cbn [markdown isMixedLineEndings doc_lineEnding
           doc_adjustLineEndingOnSave trimTrailingNewline].
    rewrite (replace_LINE_ENDING_REG_no_CRLF src Ecrlf). repeat split.
  - change (str_eqb (js "crlf") (js "lf")) with false in H. cbn [negb] in H.
    injection H as <-. repeat split.
  - injection H as <-. repeat split.
Qed.

(** A load fails only in [readFile] and on an encoding without decoder. *)
Lemma loadMarkdownFile_ok env pathname preferredEol autoGuess trim buffer :
  readFile env (path_resolve env pathname) = Ok buffer ->
  encodingExists env (encoding (guessEncoding env buffer autoGuess)) = true ->
  exists doc, loadMarkdownFile env pathname preferredEol autoGuess trim = Ok doc.
Proof.
  intros Hread Hsup. unfold loadMarkdownFile. rewrite Hread, Hsup.
  cbn [negb]. cbv zeta.
  match goal with
  | |- exists doc, (let '(a, m) := if ?c then _ else _ in _) = _ =>
      destruct c
  end; eexists; reflexivity.
Qed.

Lemma isLfAt_last (q : jsstring) (c : N) :
  isLfAt (q ++ [c]) (length (q ++ [c]) - 1) = (c =? LF).
Proof.
  unfold isLfAt. rewrite length_app. simpl length.
  replace (length q + 1 - 1)%nat with (length q) by lia.
  rewrite nth_error_app2 by lia. now rewrite Nat.sub_diag.
Qed.

Lemma isLfAt_before_last (q : jsstring) (b c : N) :
  isLfAt (q ++ [b; c]) (length (q ++ [b; c]) - 1 - 1) = (b =? LF).
Proof.
  unfold isLfAt. rewrite length_app. simpl length.
  replace (length q + 2 - 1 - 1)%nat with (length q) by lia.
  rewrite nth_error_app2 by lia. now rewrite Nat.sub_diag.
Qed.

Lemma finalNewlineCode_nonempty (m : jsstring) :
  m <> [] ->
  finalNewlineCode m =
    let lastIndex := (length m - 1)%nat in
    if (1 <=? lastIndex)%nat && isLfAt m lastIndex && isLfAt m (lastIndex - 1)
    then 2
    else if isLfAt m lastIndex then 1 else 0.
Proof. destruct m; [congruence|reflexivity]. Qed.

Lemma finalNewlineCode_cases (m : jsstring) :
  (m = [] -> finalNewlineCode m = 3) /\
  (forall q, m = q ++ [LF; LF] -> finalNewlineCode m = 2) /\
  (forall q, m = q ++ [LF] -> (forall q', q <> q' ++ [LF]) ->
             finalNewlineCode m = 1) /\
  (forall q c, m = q ++ [c] -> c <> LF -> finalNewlineCode m = 0).
Proof.
  repeat split.
  - now intros ->.
  - intros q ->. rewrite finalNewlineCode_nonempty by (now destruct q).
    cbv zeta. rewrite isLfAt_before_last.
    change (q ++ [LF; LF]) with (q ++ [LF] ++ [LF]). rewrite app_assoc.
    rewrite isLfAt_last. rewrite length_app. simpl length.
    rewrite N.eqb_refl.
    destruct (1 <=? length (q ++ [LF]) + 1 - 1)%nat eqn:E; [reflexivity|].
    apply Nat.leb_gt in E. rewrite length_app in E. simpl in E. lia.
  - intros q -> Hq. rewrite finalNewlineCode_nonempty by (now destruct q).
    cbv zeta. rewrite isLfAt_last, N.eqb_refl.
    destruct q as [|x q] using rev_ind.
    + reflexivity.
    + rewrite <- app_assoc. simpl app. rewrite isLfAt_before_last.
      destruct (x =? LF) eqn:Ex.
      * apply N.eqb_eq in Ex. subst x. now elim (Hq q).
      * now rewrite andb_false_r.
  - intros q c -> Hc. rewrite finalNewlineCode_nonempty by (now destruct q).
    cbv zeta. rewrite isLfAt_last.
    apply N.eqb_neq in Hc. rewrite Hc. now rewrite andb_false_r.
Qed.

End Load.

(** ** Trailing newline (C3) *)

(** C3.  Whenever the file can be read and its encoding is supported, a
    load without override ([trimTrailingNewline] is 2) returns a document
    whose text is the decoded text of the file (after the attempt to decrypt
    it) with its line endings rewritten to LF, and whose trailing-newline
    code classifies that text: empty text gives 3 and text ending in two line
    feeds gives 2, both read as "disabled"; text ending in one line feed that
    is not preceded by another gives 1, "ensure single"; text that does not
    end in a line feed gives 0, "trim all".  An override is returned as it
    is. *)
Theorem C3_trailing_newline_classification
    (env : Markdown.LoadEnv) (pathname preferredEol : jsstring)
    (autoGuess : bool) (buffer : list byte) :
  Markdown.readFile env (Markdown.path_resolve env pathname) = Ok buffer ->
  Markdown.encodingExists env
    (Markdown.encoding (Markdown.guessEncoding env buffer autoGuess)) = true ->
  let m :=
    Markdown.replace_LINE_ENDING_REG
      (Terms.sourceText env pathname autoGuess buffer) [LF] in
  (exists doc,
     Markdown.loadMarkdownFile env pathname preferredEol autoGuess 2 = Ok doc
     /\ Markdown.markdown doc = m
     /\ let code := Markdown.trimTrailingNewline doc in
        (m = [] ->
         code = 3 /\ Terms.policy_of_code code = Some Terms.disabled) /\
        (forall q, m = q ++ [LF; LF] ->
         code = 2 /\ Terms.policy_of_code code = Some Terms.disabled) /\
        (forall q, m = q ++ [LF] -> (forall q', q <> q' ++ [LF]) ->
         code = 1 /\ Terms.policy_of_code code = Some Terms.ensureSingle) /\
        (forall q c, m = q ++ [c] -> c <> LF ->
         code = 0 /\ Terms.policy_of_code code = Some Terms.trimAll))
  /\ (forall override, override <> 2 ->
        exists doc,
          Markdown.loadMarkdownFile env pathname preferredEol autoGuess override
          = Ok doc
          /\ Markdown.markdown doc = m
          /\ Markdown.trimTrailingNewline doc = override).
Proof.
  intros Hread Hsup m.
  assert (Hload : forall trim,
             exists doc,
               Markdown.loadMarkdownFile env pathname preferredEol autoGuess trim
               = Ok doc
               /\ Markdown.markdown doc = m
               /\ Markdown.trimTrailingNewline doc
                  = (if trim =? 2 then Terms.finalNewlineCode m else trim)).
  { intro trim.
    destruct (loadMarkdownFile_ok env pathname preferredEol autoGuess trim
                buffer Hread Hsup) as [doc Hdoc].
    exists doc. split; [exact Hdoc|].
    destruct (loadMarkdownFile_inv _ _ _ _ _ _ Hdoc)
      as (buffer' & Hread' & _ & Hm & _ & _ & _ & Hcode).
    rewrite Hread in Hread'. injection Hread' as <-.
    split; [exact Hm|]. rewrite Hcode. now rewrite Hm. }
  split.
  - destruct (Hload 2) as (doc & Hdoc & Hm & Hcode).
    exists doc. split; [exact Hdoc|]. split; [exact Hm|].
    change (2 =? 2) with true in Hcode. cbv iota in Hcode.
    cbv zeta. rewrite Hcode.
    destruct (finalNewlineCode_cases m) as (H0 & H2 & H1 & Hx).
    split; [|split; [|split]].
    + intro E. now rewrite (H0 E).
    + intros q E. now rewrite (H2 q E).
    + intros q E Hq. now rewrite (H1 q E Hq).
    + intros q c E Hc. now rewrite (Hx q c E Hc).
  - intros override Ho.
    destruct (Hload override) as (doc & Hdoc & Hm & Hcode).
    exists doc. split; [exact Hdoc|]. split; [exact Hm|].
    apply N.eqb_neq in Ho. now rewrite Ho in Hcode.
Qed.

Lemma C3_trailing_newline_classification_witness :
  exists doc,
    Markdown.loadMarkdownFile
      (Terms.oneFileEnv (Buf.utf8_encode (js "a" ++ [CR; LF])))
      (js "/notes.md") (js "lf") true 2 = Ok doc
    /\ Markdown.markdown doc = js "a" ++ [LF]
    /\ Markdown.trimTrailingNewline doc = 1
    /\ Terms.policy_of_code (Markdown.trimTrailingNewline doc)
       = Some Terms.ensureSingle.
Proof.
  destruct (proj1 (C3_trailing_newline_classification
                     (Terms.oneFileEnv (Buf.utf8_encode (js "a" ++ [CR; LF])))
                     (js "/notes.md") (js "lf") true
                     (Buf.utf8_encode (js "a" ++ [CR; LF])) eq_refl eq_refl))
    as (doc & Hdoc & Hm & _ & _ & H1 & _).
  exists doc. split; [exact Hdoc|]. split; [rewrite Hm; vm_compute; reflexivity|].
  apply (H1 (js "a")).
  - vm_compute. reflexivity.
  - intros q' E. destruct q' as [|x [|y q']]; discriminate.
Defined.

(** ** The flag [adjustLineEndingOnSave] (C4) *)

(** C4, as the code has it.  After every successful load the flag
    [adjustLineEndingOnSave] is true exactly when the resolved line ending
    is not ['lf']; mixed or unknown line endings only cause the text to be
    normalized and do not set the flag. *)
Theorem C4_adjust_flag_iff_style_not_lf
    (env : Markdown.LoadEnv) (pathname preferredEol : jsstring)
    (autoGuess : bool) (trim : N) (doc : Markdown.Document) :
  Markdown.loadMarkdownFile env pathname preferredEol autoGuess trim = Ok doc ->
  (Markdown.doc_adjustLineEndingOnSave doc = true
   <-> Markdown.doc_lineEnding doc <> js "lf").
Proof.
  intro H.
  destruct (loadMarkdownFile_inv _ _ _ _ _ _ H)
    as (buffer & _ & _ & _ & _ & _ & Hadj & _).
  rewrite Hadj. split.
  - intros Hn E. rewrite E in Hn. discriminate.
  - intro Hn.
    destruct (str_eqb (Markdown.doc_lineEnding doc) (js "lf")) eqn:E;
      [|reflexivity].
    apply str_eqb_eq in E. contradiction.
Qed.

Lemma C4_adjust_flag_iff_style_not_lf_witness :
  exists doc,
    Markdown.loadMarkdownFile
      (Terms.oneFileEnv (Buf.utf8_encode (js "a" ++ [CR; LF])))
      (js "/notes.md") (js "lf") true 2 = Ok doc
    /\ (Markdown.doc_adjustLineEndingOnSave doc = true
        <-> Markdown.doc_lineEnding doc <> js "lf").
Proof.
  eexists. split; [vm_compute; reflexivity|].
  apply (C4_adjust_flag_iff_style_not_lf
           (Terms.oneFileEnv (Buf.utf8_encode (js "a" ++ [CR; LF])))
           (js "/notes.md") (js "lf") true 2).
  vm_compute. reflexivity.
Defined.

(** C4 as stated fails: a file with both kinds of line ending, loaded with
    the preferred style ['lf'], is reported as mixed and resolves to ['lf'],
    and the flag is false. *)
Lemma C4_counterexample_mixed_with_lf :
  exists doc,
    Markdown.loadMarkdownFile
      (Terms.oneFileEnv
         (Buf.utf8_encode (js "a" ++ [LF] ++ js "b" ++ [CR; LF])))
      (js "/notes.md") (js "lf") true 2 = Ok doc
    /\ Markdown.isMixedLineEndings doc = true
    /\ Markdown.doc_lineEnding doc = js "lf"
    /\ Markdown.doc_adjustLineEndingOnSave doc = false.
Proof. eexists. repeat split; vm_compute; reflexivity. Qed.

(** ** Carriage returns after a load (C5) *)

(** C5, as the code has it.  After every successful load the returned text
    is the decoded source with each CRLF pair, read left to right, replaced
    by one LF; it is free of carriage returns when every carriage return of
    the source was followed at once by a line feed. *)
Theorem C5_content_after_load
    (env : Markdown.LoadEnv) (pathname preferredEol : jsstring)
    (autoGuess : bool) (trim : N) (doc : Markdown.Document) :
  Markdown.loadMarkdownFile env pathname preferredEol autoGuess trim = Ok doc ->
  exists buffer,
    Markdown.readFile env (Markdown.path_resolve env pathname) = Ok buffer /\
    let src := Terms.sourceText env pathname autoGuess buffer in
    Markdown.markdown doc = Markdown.replace_LINE_ENDING_REG src [LF] /\
    (Terms.crs_paired src = true -> ~ In CR (Markdown.markdown doc)).
Proof.
  intro H.
  destruct (loadMarkdownFile_inv _ _ _ _ _ _ H)
    as (buffer & Hread & _ & Hm & _).
  exists buffer. split; [exact Hread|]. cbv zeta. split; [exact Hm|].
  intro Hp. rewrite Hm. now apply replace_LINE_ENDING_REG_no_CR.
Qed.

Lemma C5_content_after_load_witness :
  exists doc,
    Markdown.loadMarkdownFile
      (Terms.oneFileEnv
         (Buf.utf8_encode (js "a" ++ [LF] ++ js "b" ++ [CR; LF])))
      (js "/notes.md") (js "lf") true 2 = Ok doc
    /\ ~ In CR (Markdown.markdown doc).
Proof.
  eexists. split; [vm_compute; reflexivity|].
  destruct (C5_content_after_load
              (Terms.oneFileEnv
                 (Buf.utf8_encode (js "a" ++ [LF] ++ js "b" ++ [CR; LF])))
              (js "/notes.md") (js "lf") true 2 _ eq_refl)
    as (buffer & Hread & Hm & Hcr).
  injection Hread as <-. apply Hcr. vm_compute. reflexivity.
Defined.

(** C5 as stated fails: a carriage return that is not followed by a line
    feed stays in the text.  Here the file has LF line endings only, so the
    text is not even passed to [convertLineEndings]. *)
Lemma C5_counterexample_lone_CR :
  exists doc,
    Markdown.loadMarkdownFile
      (Terms.oneFileEnv (Buf.utf8_encode (js "a" ++ [CR] ++ js "b" ++ [LF])))
      (js "/notes.md") (js "lf") true 2 = Ok doc
    /\ In CR (Markdown.markdown doc).
Proof.
  eexists. split; [vm_compute; reflexivity|].
  simpl. right. left. reflexivity.
Qed.

(** ** A failed decryption during a load (C1) *)

(** C1, as the code has it.  When a file whose pathname ends in [.mde] is
    read and decoded but its text fails to decrypt, the error is caught and
    dropped: the load succeeds, and the returned text is the decoded,
    undecrypted text with its line endings normalized. *)
Theorem C1_decrypt_failure_is_swallowed
    (env : Markdown.LoadEnv) (pathname preferredEol : jsstring)
    (autoGuess : bool) (trim : N) (buffer : list byte)
    (e : AES.CryptoError) :
  endsWith pathname (js ".mde") = true ->
  Markdown.readFile env (Markdown.path_resolve env pathname) = Ok buffer ->
  Markdown.encodingExists env
    (Markdown.encoding (Markdown.guessEncoding env buffer autoGuess)) = true ->
  Markdown.aesDecryptiv (Terms.decodedText env autoGuess buffer) Markdown.mm
    = Throw e ->
  exists doc,
    Markdown.loadMarkdownFile env pathname preferredEol autoGuess trim = Ok doc
    /\ Markdown.markdown doc
       = Markdown.replace_LINE_ENDING_REG
           (Terms.decodedText env autoGuess buffer) [LF].
Proof.
  intros Hext Hread Hsup Hdec.
  destruct (loadMarkdownFile_ok env pathname preferredEol autoGuess trim
              buffer Hread Hsup) as [doc Hdoc].
  exists doc. split; [exact Hdoc|].
  destruct (loadMarkdownFile_inv _ _ _ _ _ _ Hdoc)
    as (buffer' & Hread' & _ & Hm & _).
  rewrite Hread in Hread'. injection Hread' as <-.
  rewrite Hm. unfold Terms.sourceText. now rewrite Hext, Hdec.
Qed.

Lemma C1_decrypt_failure_is_swallowed_witness :
  exists doc,
    Markdown.loadMarkdownFile
      (Terms.oneFileEnv (Buf.utf8_encode (js "hello")))
      (js "/notes.mde") (js "lf") true 2 = Ok doc
    /\ Markdown.markdown doc
       = Markdown.replace_LINE_ENDING_REG (js "hello") [LF].
Proof.
  apply (C1_decrypt_failure_is_swallowed
           (Terms.oneFileEnv (Buf.utf8_encode (js "hello")))
           (js "/notes.mde") (js "lf") true 2
           (Buf.utf8_encode (js "hello")) AES.WrongFinalBlockLength).
  - vm_compute. reflexivity.
  - reflexivity.
  - reflexivity.
  - vm_compute. reflexivity.
Defined.

(** C1 as stated fails: the text [hello] in a file named [/notes.mde] does
    not decrypt, and the load returns it as the content of the document
    instead of an error. *)
Lemma C1_counterexample_ciphertext_returned :
  Markdown.aesDecryptiv (js "hello") Markdown.mm
    = Throw AES.WrongFinalBlockLength
  /\ exists doc,
       Markdown.loadMarkdownFile
         (Terms.oneFileEnv (Buf.utf8_encode (js "hello")))
         (js "/notes.mde") (js "lf") true 2 = Ok doc
       /\ Markdown.markdown doc = js "hello".
Proof.
  split; [vm_compute; reflexivity|].
  eexists. split; vm_compute; reflexivity.
Qed.

(** ** The scanner of asset references (C6) *)

Lemma push_decoded_spec (imgRow es out : list jsstring) :
  FileActions.push_decoded imgRow es = Ok out ->
  exists ds,
    out = imgRow ++ ds /\ Forall2 (fun e d => URI.decodeURI e = Ok d) es ds.
Proof.
  revert imgRow. induction es as [|e es IH]; intros imgRow H.
  - injection H as <-. exists []. split; [now rewrite app_nil_r|constructor].
  - cbn [FileActions.push_decoded] in H.
    destruct (URI.decodeURI e) as [d|] eqn:E; [|discriminate].
    destruct (IH _ H) as [ds [-> Hds]].
    exists (d :: ds). split; [now rewrite <- app_assoc|].
    now constructor.
Qed.

(** C6, as the code has it.  On the input [![x](a.png) <img src="b.png">]
    the scanner returns two strings, the whole text of the markdown-style
    match first and the whole text of the [src] match second, each passed
    through [decodeURI]; [a.png] and [b.png] occur inside them (at offsets 4
    and 6) and are not elements of the sequence.  On every input the result
    is, in this order, [decodeURI] of each whole match. *)
Theorem C6_scanner_returns_whole_matches :
  let m1 := js "[x](a.png)" in
  let m2 := js " src=" ++ [DQUOTE] ++ js "b.png" ++ [DQUOTE] in
  RegExp.match_g FileActions.imgMark_reg Terms.scanner_example = [m1]
  /\ RegExp.match_g FileActions.imgHtml_reg Terms.scanner_example = [m2]
  /\ URI.decodeURI m1 = Ok m1
  /\ URI.decodeURI m2 = Ok m2
  /\ FileActions.getRelativeImgPathFromMarkdown Terms.scanner_example
     = Ok [m1; m2]
  /\ indexOf m1 (js "a.png") = Some 4%nat
  /\ indexOf m2 (js "b.png") = Some 6%nat
  /\ (forall markdown imgRow,
        FileActions.getRelativeImgPathFromMarkdown markdown = Ok imgRow ->
        Forall2 (fun e d => URI.decodeURI e = Ok d)
          (RegExp.match_g FileActions.imgMark_reg markdown
           ++ RegExp.match_g FileActions.imgHtml_reg markdown)
          imgRow).
Proof.
  cbv zeta. do 7 (split; [vm_compute; reflexivity|]).
  intros markdown imgRow H.
  destruct (push_decoded_spec _ _ _ H) as [ds [-> Hds]]. exact Hds.
Qed.

Lemma C6_scanner_returns_whole_matches_witness :
  Forall2 (fun e d => URI.decodeURI e = Ok d)
    (RegExp.match_g FileActions.imgMark_reg (js "[a](b%20c)")
     ++ RegExp.match_g FileActions.imgHtml_reg (js "[a](b%20c)"))
    [js "[a](b c)"].
Proof.
  apply (proj2 (proj2 (proj2 (proj2 (proj2 (proj2 (proj2
           C6_scanner_returns_whole_matches)))))) (js "[a](b%20c)")).
  vm_compute. reflexivity.
Defined.

(** C6 as stated fails: neither [a.png] nor [b.png] is an element of the
    sequence that the scanner returns for the example. *)
Lemma C6_counterexample_targets_not_elements :
  exists imgRow,
    FileActions.getRelativeImgPathFromMarkdown Terms.scanner_example = Ok imgRow
    /\ existsb (str_eqb (js "a.png")) imgRow = false
    /\ existsb (str_eqb (js "b.png")) imgRow = false.
Proof. eexists. repeat split; vm_compute; reflexivity. Qed.

(** ** The candidates for deletion (C7) *)

Section Collector.
Import FileActions Terms.

Lemma ifhas_after_fold (imgRow : list jsstring) (dirFile : jsstring) (acc : bool) :
  fold_left
    (fun ifhas onePath =>
       match indexOf onePath dirFile with
       | Some _ => true
       | None => ifhas
       end) imgRow acc
  = acc || existsb (occurs_in dirFile) imgRow.
Proof.
  revert acc. induction imgRow as [|p l IH]; intro acc; simpl.
  - now rewrite orb_false_r.
  - rewrite IH. unfold occurs_in.
    destruct (indexOf p dirFile); simpl.
    + now rewrite orb_true_r.
    + reflexivity.
Qed.

Lemma ifhas_after_existsb (imgRow : list jsstring) (dirFile : jsstring) :
  ifhas_after imgRow dirFile = existsb (occurs_in dirFile) imgRow.
Proof. unfold ifhas_after. now rewrite ifhas_after_fold. Qed.

(** [ifhas] ends up true exactly when the name occurs in some reference. *)
Lemma ifhas_after_true (imgRow : list jsstring) (dirFile : jsstring) :
  ifhas_after imgRow dirFile = true
  <-> exists onePath, In onePath imgRow /\ substring dirFile onePath.
Proof.
  rewrite ifhas_after_existsb, existsb_exists.
  split; intros [p [Hin Hp]]; exists p; split; auto.
  - apply indexOf_substring. unfold occurs_in in Hp.
    destruct (indexOf p dirFile) as [i|]; [now exists i|discriminate].
  - apply indexOf_substring in Hp as [i Hi]. unfold occurs_in. now rewrite Hi.
Qed.

Lemma notNeedFiles_after_fold (dir : jsstring) (imgRow dirFiles acc : list jsstring) :
  fold_left
    (fun notNeedFiles dirFile =>
       if negb (ifhas_after imgRow dirFile)
       then notNeedFiles ++ [dir ++ Path.sep ++ dirFile]
       else notNeedFiles) dirFiles acc
  = acc ++ map (fun f => dir ++ Path.sep ++ f)
             (filter (fun f => negb (ifhas_after imgRow f)) dirFiles).
Proof.
  revert acc. induction dirFiles as [|f l IH]; intro acc; simpl.
  - now rewrite app_nil_r.
  - rewrite IH. destruct (negb (ifhas_after imgRow f)); simpl.
    + now rewrite <- app_assoc.
    + reflexivity.
Qed.

(** The two loops compute a filter. *)
Lemma notNeedFiles_after_filter (dir : jsstring) (imgRow dirFiles : list jsstring) :
  notNeedFiles_after dir imgRow dirFiles
  = map (fun f => dir ++ Path.sep ++ f)
      (filter (fun f => negb (ifhas_after imgRow f)) dirFiles).
Proof. unfold notNeedFiles_after. now rewrite notNeedFiles_after_fold. Qed.

Lemma In_notNeedFiles_after (dir : jsstring) (imgRow dirFiles : list jsstring)
    (dirFile : jsstring) :
  In (dir ++ Path.sep ++ dirFile) (notNeedFiles_after dir imgRow dirFiles)
  <-> In dirFile dirFiles
      /\ forall onePath, In onePath imgRow -> ~ substring dirFile onePath.
Proof.
  rewrite notNeedFiles_after_filter, in_map_iff. split.
  - intros [f [E Hf]]. apply app_inv_head in E. apply app_inv_head in E.
    subst f. apply filter_In in Hf as [Hin Hneg]. split; [exact Hin|].
    intros p Hp Hsub. apply negb_true_iff in Hneg.
    assert (ifhas_after imgRow dirFile = true) as Ht
      by (apply ifhas_after_true; now exists p).
    congruence.
  - intros [Hin Hno]. exists dirFile. split; [reflexivity|].
    apply filter_In. split; [exact Hin|]. apply negb_true_iff.
    destruct (ifhas_after imgRow dirFile) eqn:E; [|reflexivity].
    apply ifhas_after_true in E as [p [Hp Hsub]]. now elim (Hno p).
Qed.

End Collector.

(** C7.  From the saved pathname and the reference sequence on: when the
    asset directory exists and the sequence is empty, the directory itself is
    the one candidate; when the directory does not exist there is none;
    otherwise the candidates are entries of the directory, and an entry is a
    candidate exactly when its name occurs in no reference.  With the
    entries a.png, b.png, c.png and the one reference a.png the candidates
    are b.png and c.png.  [checkImgAndDelete] is this computation on the
    sequence that the scanner returns. *)
Theorem C7_deletion_candidates
    (fs : FileActions.FsEnv) (filePath : jsstring) (imgRow : list jsstring) :
  let dir := FileActions.assetDir filePath in
  (FileActions.existsSync fs dir = true -> imgRow = [] ->
   FileActions.collect fs filePath imgRow = Ok (Some [dir]))
  /\ (FileActions.existsSync fs dir = false ->
      FileActions.collect fs filePath imgRow = Ok None)
  /\ (forall dirFiles,
        FileActions.existsSync fs dir = true -> imgRow <> [] ->
        FileActions.readdirSync fs dir = Ok dirFiles ->
        exists candidates,
          FileActions.collect fs filePath imgRow = Ok (Some candidates)
          /\ (forall c, In c candidates ->
                exists dirFile, c = dir ++ Path.sep ++ dirFile)
          /\ (forall dirFile,
                In (dir ++ Path.sep ++ dirFile) candidates
                <-> In dirFile dirFiles
                    /\ forall onePath, In onePath imgRow ->
                         ~ Terms.substring dirFile onePath))
  /\ FileActions.collect
       (Terms.dirEnv [js "a.png"; js "b.png"; js "c.png"]) filePath [js "a.png"]
     = Ok (Some [dir ++ Path.sep ++ js "b.png"; dir ++ Path.sep ++ js "c.png"])
  /\ (forall markdown,
        FileActions.getRelativeImgPathFromMarkdown markdown = Ok imgRow ->
        FileActions.checkImgAndDelete fs filePath markdown
        = FileActions.collect fs filePath imgRow)
  /\ FileActions.checkImgAndDelete
       (Terms.dirEnv [js "a.png"; js "b.png"; js "c.png"])
       (js "/d/n.md") (js "![x](a.png)")
     = Ok (Some [js "/d/n.assets/b.png"; js "/d/n.assets/c.png"]).
Proof.
  intro dir.
  assert (Hscan : forall markdown,
             FileActions.getRelativeImgPathFromMarkdown markdown = Ok imgRow ->
             FileActions.checkImgAndDelete fs filePath markdown
             = FileActions.collect fs filePath imgRow).
  { intros markdown H. unfold FileActions.checkImgAndDelete. now rewrite H. }
  unfold FileActions.collect. fold dir.
  split; [|split; [|split; [|split; [|split; [exact Hscan|]]]]];
    [| | | |vm_compute; reflexivity].
  - intros Hd ->. now rewrite Hd.
  - intros Hd. now rewrite Hd.
  - intros dirFiles Hd Hne Hread. rewrite Hd, Hread.
    destruct imgRow as [|r imgRow]; [congruence|]. cbn [length Nat.eqb andb negb].
    eexists. split; [reflexivity|]. split.
    + intros c Hc. rewrite notNeedFiles_after_filter in Hc.
      apply in_map_iff in Hc as [f [<- _]]. now exists f.
    + intro dirFile. apply In_notNeedFiles_after.
  - reflexivity.
Qed.

Lemma C7_deletion_candidates_witness :
  FileActions.collect (Terms.dirEnv [js "a.png"]) (js "/d/n.md") []
  = Ok (Some [js "/d/n.assets"]).
Proof.
  apply (proj1 (C7_deletion_candidates
                  (Terms.dirEnv [js "a.png"]) (js "/d/n.md") [])).
  - reflexivity.
  - reflexivity.
Defined.

(** ** The asset directory (C8) *)

(** C8 does not hold of the code.  The directory is computed by replacing
    the first [.mde], then the first [.md], anywhere in the pathname: for
    [/home/u/my.mdocs/note.md] the result is [/home/u/my.assetsocs/note.md]
    and not the sibling [/home/u/my.mdocs/note.assets]; for
    [/home/u/note.txt] the result is the pathname of the document itself,
    which the collector then hands to [tryDelete] when the document has no
    reference. *)
Theorem C8_asset_directory_replaces_first_occurrence :
  FileActions.assetDir (js "/home/u/my.mdocs/note.md")
    = js "/home/u/my.assetsocs/note.md"
  /\ Terms.assetDir_spec (js "/home/u/my.mdocs/note.md")
     = js "/home/u/my.mdocs/note.assets"
  /\ FileActions.assetDir (js "/home/u/note.txt") = js "/home/u/note.txt"
  /\ Terms.assetDir_spec (js "/home/u/note.txt") = js "/home/u/note.assets"
  /\ FileActions.collect (Terms.dirEnv []) (js "/home/u/note.txt") []
     = Ok (Some [js "/home/u/note.txt"]).
Proof. repeat split; vm_compute; reflexivity. Qed.

(** ** The choice of the codec on load and on save (C10) *)

Section CodecChoice.
Import Markdown Terms.

(** The process-wide key is a valid AES-128 key. *)
Lemma mm_is_a_key :
  exists k, AES.state_of_bytes (Buf.hex_decode mm) = Some k.
Proof. eexists. vm_compute. reflexivity. Qed.

(** Under that key [aesEncryptiv] does not throw. *)
Lemma aesEncryptiv_mm_total (str : jsstring) :
  exists c, aesEncryptiv str mm = Ok c.
Proof.
  unfold aesEncryptiv, AES.cipheriv_aes_128_cbc.
  destruct mm_is_a_key as [k ->]. eexists. reflexivity.
Qed.

Lemma extension_is_mde (e : jsstring) :
  str_eqb (match e with [] => js ".md" | n :: l => n :: l end) (js ".mde")
  = str_eqb e (js ".mde").
Proof. now destruct e. Qed.

End CodecChoice.

(** C10.  On load the text is decrypted exactly when the pathname, as a
    string, ends in [.mde]; on save it is encrypted exactly when
    [path.extname] of the pathname is [.mde].  The two tests differ on
    [/docs/.mde], whose extension is empty: a load decrypts it, a save
    writes it in clear. *)
Theorem C10_load_and_save_select_the_codec_differently :
  (forall env pathname preferredEol autoGuess trim buffer,
      Markdown.readFile env (Markdown.path_resolve env pathname) = Ok buffer ->
      Markdown.encodingExists env
        (Markdown.encoding (Markdown.guessEncoding env buffer autoGuess)) = true ->
      let decoded := Terms.decodedText env autoGuess buffer in
      exists doc,
        Markdown.loadMarkdownFile env pathname preferredEol autoGuess trim
          = Ok doc
        /\ Markdown.markdown doc
           = Markdown.replace_LINE_ENDING_REG
               (if endsWith pathname (js ".mde")
                then match Markdown.aesDecryptiv decoded Markdown.mm with
                     | Ok m => m
                     | Throw _ => decoded
                     end
                else decoded) [LF])
  /\ (forall iconv_encode pathname content options,
        let text :=
          if Markdown.adjustLineEndingOnSave options
          then Markdown.convertLineEndings content (Markdown.lineEnding options)
          else content in
        exists ciphertext call,
          Markdown.aesEncryptiv text Markdown.mm = Ok ciphertext
          /\ Markdown.writeMarkdownFile iconv_encode pathname content options
             = Ok call
          /\ Markdown.write_buffer call
             = iconv_encode
                 (if str_eqb (Path.extname pathname) (js ".mde")
                  then ciphertext else text)
                 (Markdown.encoding (Markdown.options_encoding options))
                 (Markdown.isBom (Markdown.options_encoding options)))
  /\ endsWith (js "/docs/.mde") (js ".mde") = true
  /\ Path.extname (js "/docs/.mde") = [].
Proof.
  split; [|split; [|split]].
  - intros env pathname preferredEol autoGuess trim buffer Hread Hsup decoded.
    destruct (loadMarkdownFile_ok env pathname preferredEol autoGuess trim
                buffer Hread Hsup) as [doc Hdoc].
    exists doc. split; [exact Hdoc|].
    destruct (loadMarkdownFile_inv _ _ _ _ _ _ Hdoc)
      as (buffer' & Hread' & _ & Hm & _).
    rewrite Hread in Hread'. injection Hread' as <-.
    rewrite Hm. unfold Terms.sourceText. fold decoded.
    now destruct (endsWith pathname (js ".mde")).
  - intros iconv_encode pathname content options text.
    destruct (aesEncryptiv_mm_total text) as [c Hc].
    unfold Markdown.writeMarkdownFile. fold text.
    rewrite extension_is_mde.
    destruct (str_eqb (Path.extname pathname) (js ".mde")).
    + rewrite Hc. eexists. eexists. split; [reflexivity|].
      split; reflexivity.
    + eexists. eexists. split; [exact Hc|]. split; reflexivity.
  - vm_compute. reflexivity.
  - vm_compute. reflexivity.
Qed.

Lemma C10_load_and_save_select_the_codec_differently_witness :
  exists doc,
    Markdown.loadMarkdownFile
      (Terms.oneFileEnv (Buf.utf8_encode (js "hello")))
      (js "/docs/.mde") (js "lf") true 2 = Ok doc
    /\ Markdown.markdown doc = js "hello".
Proof.
  destruct (proj1 C10_load_and_save_select_the_codec_differently
              (Terms.oneFileEnv (Buf.utf8_encode (js "hello")))
              (js "/docs/.mde") (js "lf") true 2
              (Buf.utf8_encode (js "hello")) eq_refl eq_refl)
    as [doc [Hdoc Hm]].
  exists doc. split; [exact Hdoc|].
  rewrite Hm. vm_compute. reflexivity.
Defined.

(** ** Bytes *)

Section Bytes.
Import Buf.

Lemma to_N_byte_of_N (n : N) : n < 256 -> Byte.to_N (byte_of_N n) = n.
Proof.
  intro H. unfold byte_of_N. rewrite N.mod_small by exact H.
  destruct (Byte.of_N n) as [b|] eqn:E.
  - now apply Byte.to_of_N.
  - apply Byte.of_N_None_iff in E. lia.
Qed.

Lemma byte_of_N_to_N (b : byte) : byte_of_N (Byte.to_N b) = b.
Proof.
  unfold byte_of_N. pose proof (Byte.to_N_bounded b) as H.
  rewrite N.mod_small by lia. now rewrite Byte.of_to_N.
Qed.

Lemma byte_of_N_eq (n : N) (b : byte) : n = Byte.to_N b -> byte_of_N n = b.
Proof. intros ->. apply byte_of_N_to_N. Qed.

Lemma to_N_lt_256 (b : byte) : Byte.to_N b < 256.
Proof. pose proof (Byte.to_N_bounded b). lia. Qed.

Lemma to_N_inj (a b : byte) : Byte.to_N a = Byte.to_N b -> a = b.
Proof.
  intro H. rewrite <- (byte_of_N_to_N a), <- (byte_of_N_to_N b).
  now rewrite H.
Qed.

(** Enumeration: a decidable property that holds of the 256 bytes of
    [all_bytes] holds of every byte. *)
Lemma In_all_bytes (b : byte) : In b all_bytes.
Proof.
  unfold all_bytes. apply in_map_iff. exists (N.to_nat (Byte.to_N b)). split.
  - rewrite N2Nat.id. apply byte_of_N_to_N.
  - apply in_seq. pose proof (to_N_lt_256 b). lia.
Qed.

Lemma forall_bytes (P : byte -> bool) :
  forallb P all_bytes = true -> forall b, P b = true.
Proof. intros H b. rewrite forallb_forall in H. apply H, In_all_bytes. Qed.

Lemma forall_bytes2 (P : byte -> byte -> bool) :
  forallb (fun a => forallb (P a) all_bytes) all_bytes = true ->
  forall a b, P a b = true.
Proof.
  intros H a b. apply forall_bytes. revert a. apply forall_bytes. exact H.
Qed.

Lemma lxor_lt_256 (a b : N) : a < 256 -> b < 256 -> N.lxor a b < 256.
Proof.
  intros Ha Hb.
  destruct (N.eq_dec (N.lxor a b) 0) as [E|E]; [rewrite E; lia|].
  apply N.log2_lt_pow2 with (b := 8); [lia|].
  eapply N.le_lt_trans; [apply N.log2_lxor|].
  apply N.max_lub_lt.
  - destruct (N.eq_dec a 0) as [->|Ha0]; [reflexivity|].
    apply N.log2_lt_pow2; [lia|exact Ha].
  - destruct (N.eq_dec b 0) as [->|Hb0]; [reflexivity|].
    apply N.log2_lt_pow2; [lia|exact Hb].
Qed.

Lemma to_N_bxor (a b : byte) :
  Byte.to_N (bxor a b) = N.lxor (Byte.to_N a) (Byte.to_N b).
Proof.
  unfold bxor. apply to_N_byte_of_N.
  apply lxor_lt_256; apply to_N_lt_256.
Qed.

Lemma bxor_involutive (a b : byte) : bxor (bxor a b) b = a.
Proof.
  apply to_N_inj. rewrite !to_N_bxor.
  rewrite N.lxor_assoc, N.lxor_nilpotent. apply N.lxor_0_r.
Qed.

Lemma bxor_0_r (a : byte) : bxor a x00 = a.
Proof. apply to_N_inj. rewrite to_N_bxor. apply N.lxor_0_r. Qed.

Lemma bxor_0_l (a : byte) : bxor x00 a = a.
Proof. apply to_N_inj. rewrite to_N_bxor. apply N.lxor_0_l. Qed.

End Bytes.

(** Equations between exclusive ors of bytes, bit by bit. *)
Ltac bxor_ac :=
  intros; apply to_N_inj; rewrite ?to_N_bxor; apply N.bits_inj; intro;
  rewrite ?N.lxor_spec; btauto.

(** ** AES-128: [InvMixColumns] undoes [MixColumns] *)

(** Both are linear over the exclusive or, so it is enough to compare them
    on the columns with one non-zero byte, and those are enumerated. *)
Section MixColumns.
Import Buf AES.

Lemma xtime_linear : linear xtime.
Proof.
  intros a b. apply Byte.byte_dec_bl. revert a b.
  apply (forall_bytes2
           (fun a b => Byte.eqb (xtime (bxor a b)) (bxor (xtime a) (xtime b)))).
  vm_compute. reflexivity.
Qed.

Lemma mul3_linear : linear mul3.
Proof. intros a b. unfold mul3. rewrite xtime_linear. bxor_ac. Qed.

Lemma mul9_linear : linear mul9.
Proof. intros a b. unfold mul9. rewrite !xtime_linear. bxor_ac. Qed.

Lemma mul11_linear : linear mul11.
Proof. intros a b. unfold mul11. rewrite !xtime_linear. bxor_ac. Qed.

Lemma mul13_linear : linear mul13.
Proof. intros a b. unfold mul13. rewrite !xtime_linear. bxor_ac. Qed.

Lemma mul14_linear : linear mul14.
Proof. intros a b. unfold mul14. rewrite !xtime_linear. bxor_ac. Qed.

Lemma mix_column_additive (v w : word) :
  mix_column (xor_word v w) = xor_word (mix_column v) (mix_column w).
Proof.
  destruct v as [a0 a1 a2 a3], w as [e0 e1 e2 e3].
  unfold mix_column, xor_word, xor4, mul2; cbn [b0 b1 b2 b3].
  rewrite !xtime_linear, !mul3_linear.
  f_equal; bxor_ac.
Qed.

Lemma inv_mix_column_additive (v w : word) :
  inv_mix_column (xor_word v w)
  = xor_word (inv_mix_column v) (inv_mix_column w).
Proof.
  destruct v as [a0 a1 a2 a3], w as [e0 e1 e2 e3].
  unfold inv_mix_column, xor_word, xor4; cbn [b0 b1 b2 b3].
  rewrite !mul9_linear, !mul11_linear, !mul13_linear, !mul14_linear.
  f_equal; bxor_ac.
Qed.

Lemma word_eq_by_computation (f g : byte -> word) :
  forallb
    (fun a =>
       let '(W p q r s) := f a in
       let '(W p' q' r' s') := g a in
       Byte.eqb p p' && Byte.eqb q q' && Byte.eqb r r' && Byte.eqb s s')
    all_bytes = true ->
  forall a, f a = g a.
Proof.
  intros H a. pose proof (forall_bytes _ H a) as Ha. cbv beta in Ha.
  destruct (f a), (g a).
  apply andb_true_iff in Ha as [Ha H4]. apply andb_true_iff in Ha as [Ha H3].
  apply andb_true_iff in Ha as [H1 H2].
  apply Byte.byte_dec_bl in H1, H2, H3, H4. congruence.
Qed.

Lemma inv_mix_unit0 (a : byte) :
  inv_mix_column (mix_column (W a x00 x00 x00)) = W a x00 x00 x00.
Proof. revert a. apply word_eq_by_computation. vm_compute. reflexivity. Qed.

Lemma inv_mix_unit1 (a : byte) :
  inv_mix_column (mix_column (W x00 a x00 x00)) = W x00 a x00 x00.
Proof. revert a. apply word_eq_by_computation. vm_compute. reflexivity. Qed.

Lemma inv_mix_unit2 (a : byte) :
  inv_mix_column (mix_column (W x00 x00 a x00)) = W x00 x00 a x00.
Proof. revert a. apply word_eq_by_computation. vm_compute. reflexivity. Qed.

Lemma inv_mix_unit3 (a : byte) :
  inv_mix_column (mix_column (W x00 x00 x00 a)) = W x00 x00 x00 a.
Proof. revert a. apply word_eq_by_computation. vm_compute. reflexivity. Qed.

Lemma word_decompose (a0 a1 a2 a3 : byte) :
  W a0 a1 a2 a3 =
  xor_word (xor_word (W a0 x00 x00 x00) (W x00 a1 x00 x00))
           (xor_word (W x00 x00 a2 x00) (W x00 x00 x00 a3)).
Proof.
  unfold xor_word; cbn [b0 b1 b2 b3].
  now rewrite !bxor_0_r, !bxor_0_l.
Qed.

Lemma inv_mix_column_mix_column (w : word) :
  inv_mix_column (mix_column w) = w.
Proof.
  destruct w as [a0 a1 a2 a3].
  rewrite (word_decompose a0 a1 a2 a3) at 1.
  rewrite !mix_column_additive, !inv_mix_column_additive.
  rewrite inv_mix_unit0, inv_mix_unit1, inv_mix_unit2, inv_mix_unit3.
  symmetry. apply word_decompose.
Qed.

End MixColumns.

(** ** AES-128: the inverse cipher, CBC and the padding *)

Section Aes.
Import Buf AES.

Lemma inv_sbox_sbox (b : byte) : inv_sbox (sbox b) = b.
Proof.
  apply Byte.byte_dec_bl. revert b.
  apply (forall_bytes (fun b => Byte.eqb (inv_sbox (sbox b)) b)).
  vm_compute. reflexivity.
Qed.

Lemma xor_word_involutive (v w : word) : xor_word (xor_word v w) w = v.
Proof.
  destruct v, w. unfold xor_word; cbn [b0 b1 b2 b3].
  now rewrite !bxor_involutive.
Qed.

Lemma AddRoundKey_involutive (k s : state) :
  AddRoundKey k (AddRoundKey k s) = s.
Proof.
  destruct s, k. unfold AddRoundKey; cbn [c0 c1 c2 c3].
  now rewrite !xor_word_involutive.
Qed.

Lemma InvSubBytes_SubBytes (s : state) : InvSubBytes (SubBytes s) = s.
Proof.
  destruct s as [[] [] [] []].
  unfold InvSubBytes, SubBytes, map_state, map_word;
    cbn [c0 c1 c2 c3 b0 b1 b2 b3].
  now rewrite !inv_sbox_sbox.
Qed.

Lemma InvShiftRows_ShiftRows (s : state) : InvShiftRows (ShiftRows s) = s.
Proof. now destruct s as [[] [] [] []]. Qed.

Lemma InvMixColumns_MixColumns (s : state) : InvMixColumns (MixColumns s) = s.
Proof.
  destruct s. unfold InvMixColumns, MixColumns, map_state; cbn [c0 c1 c2 c3].
  now rewrite !inv_mix_column_mix_column.
Qed.

Lemma inv_rounds_rounds (ks : list state) (s : state) :
  inv_rounds ks (rounds ks s) = s.
Proof.
  revert s. induction ks as [|k ks IH]; intro s; [reflexivity|].
  destruct ks as [|k' ks].
  - cbn [rounds inv_rounds].
    now rewrite AddRoundKey_involutive, InvShiftRows_ShiftRows,
      InvSubBytes_SubBytes.
  - change (rounds (k :: k' :: ks) s)
      with (rounds (k' :: ks)
              (AddRoundKey k (MixColumns (ShiftRows (SubBytes s))))).
    change (inv_rounds (k :: k' :: ks) ?x)
      with (InvSubBytes (InvShiftRows (InvMixColumns
              (AddRoundKey k (inv_rounds (k' :: ks) x))))).
    rewrite IH.
    now rewrite AddRoundKey_involutive, InvMixColumns_MixColumns,
      InvShiftRows_ShiftRows, InvSubBytes_SubBytes.
Qed.

(** The inverse cipher undoes the cipher, whatever the round keys. *)
Lemma InvCipher_Cipher (ks : list state) (s : state) :
  InvCipher ks (Cipher ks s) = s.
Proof.
  destruct ks as [|k ks]; [reflexivity|].
  cbn [InvCipher Cipher].
  now rewrite inv_rounds_rounds, AddRoundKey_involutive.
Qed.

Lemma cbc_decrypt_encrypt (ks : list state) (iv : state) (bl : list state) :
  cbc_decrypt ks iv (cbc_encrypt ks iv bl) = bl.
Proof.
  revert iv. induction bl as [|p bl IH]; intro iv; [reflexivity|].
  cbn [cbc_encrypt cbc_decrypt].
  now rewrite InvCipher_Cipher, AddRoundKey_involutive, IH.
Qed.

Lemma length_cbc_encrypt (ks : list state) (iv : state) (bl : list state) :
  length (cbc_encrypt ks iv bl) = length bl.
Proof. revert iv; induction bl; intro iv; simpl; auto. Qed.

Lemma length_bytes_of_state (s : state) : length (bytes_of_state s) = 16%nat.
Proof. reflexivity. Qed.

Lemma split_blocks_app (s : state) (bs : list byte) :
  split_blocks (bytes_of_state s ++ bs)
  = (s :: fst (split_blocks bs), snd (split_blocks bs)).
Proof.
  destruct s as [[] [] [] []].
  cbn [bytes_of_state bytes_of_word c0 c1 c2 c3 b0 b1 b2 b3 app].
  cbn [split_blocks]. now destruct (split_blocks bs).
Qed.

Lemma split_blocks_concat (bl : list state) :
  split_blocks (concat (map bytes_of_state bl)) = (bl, []).
Proof.
  induction bl as [|s bl IH]; [reflexivity|].
  cbn [map concat]. rewrite split_blocks_app, IH. reflexivity.
Qed.

Lemma length_concat_blocks (bl : list state) :
  length (concat (map bytes_of_state bl)) = (16 * length bl)%nat.
Proof.
  induction bl as [|s bl IH]; [reflexivity|].
  cbn [map concat]. rewrite length_app, IH, length_bytes_of_state.
  cbn [length]. lia.
Qed.

Lemma split_blocks_spec (bs : list byte) :
  bs = concat (map bytes_of_state (fst (split_blocks bs)))
       ++ snd (split_blocks bs)
  /\ (length (snd (split_blocks bs)) < 16)%nat.
Proof.
  assert (H : forall n bs, (length bs <= n)%nat ->
            bs = concat (map bytes_of_state (fst (split_blocks bs)))
                 ++ snd (split_blocks bs)
            /\ (length (snd (split_blocks bs)) < 16)%nat).
  { clear bs. induction n as [|n IH]; intros bs Hn.
    - destruct bs; [|simpl in Hn; lia]. simpl. split; [reflexivity|lia].
    - do 16 (destruct bs as [|? bs]; [simpl; split; [reflexivity|lia]|]).
      cbn [split_blocks].
      destruct (IH bs) as [E L]; [simpl in Hn; lia|].
      destruct (split_blocks bs) as [bl rest].
      cbn [fst snd] in *. split; [|exact L].
      cbn [map concat bytes_of_state bytes_of_word
             c0 c1 c2 c3 b0 b1 b2 b3 app].
      now rewrite <- E. }
  now apply (H (length bs)).
Qed.

(** A byte string of a whole number of blocks is the concatenation of its
    blocks. *)
Lemma split_blocks_whole (bs : list byte) :
  (length bs mod 16 = 0)%nat ->
  split_blocks bs = (fst (split_blocks bs), [])
  /\ bs = concat (map bytes_of_state (fst (split_blocks bs))).
Proof.
  intro Hm. destruct (split_blocks_spec bs) as [E L].
  destruct (split_blocks bs) as [bl rest]. cbn [fst snd] in *.
  assert (rest = []) as ->.
  { apply length_zero_iff_nil.
    assert (length bs = (16 * length bl + length rest)%nat) as Hl
      by (rewrite E at 1; now rewrite length_app, length_concat_blocks).
    rewrite Hl in Hm.
    rewrite Nat.add_comm, Nat.mul_comm, Nat.Div0.mod_add in Hm.
    rewrite Nat.mod_small in Hm by exact L. exact Hm. }
  split; [reflexivity|]. now rewrite app_nil_r in E.
Qed.

Lemma length_pkcs7_pad (bs : list byte) :
  length (pkcs7_pad bs) = (16 * (length bs / 16 + 1))%nat.
Proof.
  unfold pkcs7_pad. rewrite length_app, repeat_length.
  pose proof (Nat.div_mod_eq (length bs) 16).
  pose proof (Nat.mod_upper_bound (length bs) 16). lia.
Qed.

Lemma pkcs7_unpad_pad (bs : list byte) : pkcs7_unpad (pkcs7_pad bs) = Some bs.
Proof.
  unfold pkcs7_unpad, pkcs7_pad.
  set (n := (16 - length bs mod 16)%nat).
  assert (Hn : (1 <= n <= 16)%nat).
  { subst n. pose proof (Nat.mod_upper_bound (length bs) 16). lia. }
  set (x := byte_of_N (N.of_nat n)).
  assert (Hx : N.to_nat (Byte.to_N x) = n).
  { subst x. rewrite to_N_byte_of_N by lia. apply Nat2N.id. }
  rewrite rev_app_distr, rev_repeat.
  destruct n as [|m] eqn:En; [lia|]. cbn [repeat app].
  rewrite Hx, length_app. cbn [length]. rewrite repeat_length.
  replace (length bs + S m - S m)%nat with (length bs) by lia.
  rewrite skipn_app, skipn_all, Nat.sub_diag. cbn [skipn app].
  rewrite firstn_app, firstn_all, Nat.sub_diag. cbn [firstn].
  rewrite app_nil_r.
  assert (Hall : forallb (Byte.eqb x) (x :: repeat x m) = true).
  { apply forallb_forall. intros y Hy. apply Byte.byte_dec_lb.
    destruct Hy as [Hy|Hy]; [exact Hy|].
    symmetry. now apply repeat_spec in Hy. }
  rewrite Hall.
  replace ((1 <=? S m)%nat) with true by (symmetry; apply Nat.leb_le; lia).
  replace ((S m <=? 16)%nat) with true by (symmetry; apply Nat.leb_le; lia).
  replace ((S m <=? length bs + S m)%nat) with true
    by (symmetry; apply Nat.leb_le; lia).
  reflexivity.
Qed.

(** Deciphering what was enciphered under the same key and vector returns
    the data. *)
Lemma decipheriv_cipheriv (key iv data c : list byte) :
  cipheriv_aes_128_cbc key iv data = Ok c ->
  decipheriv_aes_128_cbc key iv c = Ok data.
Proof.
  unfold cipheriv_aes_128_cbc, decipheriv_aes_128_cbc.
  destruct (state_of_bytes iv) as [v|]; [|discriminate].
  destruct (state_of_bytes key) as [k|]; [|discriminate].
  intro H. injection H as <-.
  rewrite split_blocks_concat.
  destruct (split_blocks_whole (pkcs7_pad data)) as [_ Hp].
  { rewrite length_pkcs7_pad. now rewrite Nat.mul_comm, Nat.Div0.mod_mul. }
  remember (fst (split_blocks (pkcs7_pad data))) as bl eqn:Ebl.
  destruct bl as [|p bl'].
  - exfalso. apply (f_equal (@length byte)) in Hp.
    rewrite length_pkcs7_pad in Hp. simpl in Hp. lia.
  - destruct (cbc_encrypt (KeyExpansion k) v (p :: bl')) as [|c r] eqn:Eenc;
      [discriminate|].
    rewrite <- Eenc, cbc_decrypt_encrypt, <- Hp, pkcs7_unpad_pad.
    reflexivity.
Qed.

End Aes.

(** ** Base64 *)

Section Base64.
Import Buf.

Lemma forall_N_below (P : N -> bool) (k : nat) :
  forallb (fun i => P (N.of_nat i)) (seq 0 k) = true ->
  forall n, n < N.of_nat k -> P n = true.
Proof.
  intros H n Hn. rewrite forallb_forall in H.
  rewrite <- (N2Nat.id n). apply H. apply in_seq. lia.
Qed.

Lemma unbase64_b64_char (n : N) :
  n < 64 -> unbase64 (b64_char n) = Some n.
Proof.
  intro H.
  assert (E : match unbase64 (b64_char n) with
              | Some m => m =? n
              | None => false
              end = true).
  { revert n H. apply (forall_N_below _ 64). vm_compute. reflexivity. }
  destruct (unbase64 (b64_char n)); [|discriminate].
  apply N.eqb_eq in E. now subst.
Qed.

Lemma b64_char_not_equals (n : N) : n < 64 -> (b64_char n =? EQUALS) = false.
Proof.
  intro H.
  assert (E : negb (b64_char n =? EQUALS) = true).
  { revert n H. apply (forall_N_below _ 64). vm_compute. reflexivity. }
  now apply negb_true_iff in E.
Qed.

Lemma b64_sextets_char (n : N) (s : jsstring) :
  n < 64 -> b64_sextets (b64_char n :: s) = n :: b64_sextets s.
Proof.
  intro H. cbn [b64_sextets].
  now rewrite b64_char_not_equals, unbase64_b64_char.
Qed.

Lemma list_ind3 {A : Type} (P : list A -> Prop) :
  P [] -> (forall a, P [a]) -> (forall a b, P [a; b]) ->
  (forall a b c r, P r -> P (a :: b :: c :: r)) ->
  forall l, P l.
Proof.
  intros H0 H1 H2 H3 l.
  assert (H : P l /\ (forall a, P (a :: l)) /\ (forall a b, P (a :: b :: l))).
  { induction l as [|x l (IH0 & IH1 & IH2)]; repeat split; auto. }
  exact (proj1 H).
Qed.

(** [Buffer.from(buf.toString('base64'), 'base64')] is [buf]. *)
Lemma base64_decode_encode (bs : list byte) :
  base64_decode (base64_encode bs) = bs.
Proof.
  unfold base64_decode.
  induction bs as [| a | a b | a b c r IH] using list_ind3.
  - reflexivity.
  - pose proof (to_N_lt_256 a).
    cbn [base64_encode]. rewrite !b64_sextets_char by lia_div.
    cbn [b64_sextets N.eqb EQUALS Pos.eqb b64_groups].
    f_equal. apply byte_of_N_eq. lia_div.
  - pose proof (to_N_lt_256 a). pose proof (to_N_lt_256 b).
    cbn [base64_encode]. rewrite !b64_sextets_char by lia_div.
    cbn [b64_sextets N.eqb EQUALS Pos.eqb b64_groups].
    f_equal; [|f_equal]; apply byte_of_N_eq; lia_div.
  - pose proof (to_N_lt_256 a). pose proof (to_N_lt_256 b).
    pose proof (to_N_lt_256 c).
    cbn [base64_encode]. rewrite !b64_sextets_char by lia_div.
    cbn [b64_groups]. rewrite IH.
    f_equal; [|f_equal; [|f_equal]]; apply byte_of_N_eq; lia_div.
Qed.

End Base64.

(** ** UTF-8 *)

Section Utf8.
Import Buf.

Lemma decode_start_1 (n : N) (r : list byte) :
  n < 0x80 ->
  utf8_decode_from U8Start (byte_of_N n :: r) = n :: utf8_decode_from U8Start r.
Proof.
  intro H. cbn [utf8_decode_from]. rewrite to_N_byte_of_N by lia.
  unfold u8_first. resolve_cmp. reflexivity.
Qed.

Lemma decode_start_2 (n : N) (r : list byte) :
  0xC2 <= n <= 0xDF ->
  utf8_decode_from U8Start (byte_of_N n :: r)
  = utf8_decode_from (U8Cont 1 (n mod 32) 0x80 0xBF) r.
Proof.
  intro H. cbn [utf8_decode_from]. rewrite to_N_byte_of_N by lia.
  unfold u8_first. resolve_cmp. reflexivity.
Qed.

Lemma decode_start_3 (n : N) (r : list byte) :
  0xE0 <= n <= 0xEF ->
  utf8_decode_from U8Start (byte_of_N n :: r)
  = utf8_decode_from
      (U8Cont 2 (n mod 16) (if n =? 0xE0 then 0xA0 else 0x80)
         (if n =? 0xED then 0x9F else 0xBF)) r.
Proof.
  intro H. cbn [utf8_decode_from]. rewrite to_N_byte_of_N by lia.
  unfold u8_first.
  cmp_false (n <? 128). cmp_false (n <=? 223). cmp_true (224 <=? n).
  cmp_true (n <=? 239). rewrite andb_false_r. reflexivity.
Qed.

Lemma decode_start_4 (n : N) (r : list byte) :
  0xF0 <= n <= 0xF4 ->
  utf8_decode_from U8Start (byte_of_N n :: r)
  = utf8_decode_from
      (U8Cont 3 (n mod 8) (if n =? 0xF0 then 0x90 else 0x80)
         (if n =? 0xF4 then 0x8F else 0xBF)) r.
Proof.
  intro H. cbn [utf8_decode_from]. rewrite to_N_byte_of_N by lia.
  unfold u8_first.
  cmp_false (n <? 128). cmp_false (n <=? 223). cmp_false (n <=? 239).
  cmp_true (240 <=? n). cmp_true (n <=? 244). rewrite !andb_false_r.
  reflexivity.
Qed.

Lemma decode_cont_last (cp lo hi n : N) (r : list byte) :
  lo <= n <= hi -> n < 256 ->
  utf8_decode_from (U8Cont 1 cp lo hi) (byte_of_N n :: r)
  = utf16_of_code_point (cp * 64 + n mod 64) ++ utf8_decode_from U8Start r.
Proof.
  intros H Hn. cbn [utf8_decode_from]. rewrite to_N_byte_of_N by lia.
  cmp_true (lo <=? n). cmp_true (n <=? hi). reflexivity.
Qed.

Lemma decode_cont_more (k : nat) (cp lo hi n : N) (r : list byte) :
  lo <= n <= hi -> n < 256 ->
  utf8_decode_from (U8Cont (S (S k)) cp lo hi) (byte_of_N n :: r)
  = utf8_decode_from (U8Cont (S k) (cp * 64 + n mod 64) 0x80 0xBF) r.
Proof.
  intros H Hn. cbn [utf8_decode_from]. rewrite to_N_byte_of_N by lia.
  cmp_true (lo <=? n). cmp_true (n <=? hi). reflexivity.
Qed.

Lemma utf8_decode_code_point (cp : N) (r : list byte) :
  scalar cp ->
  utf8_decode_from U8Start (utf8_of_code_point cp ++ r)
  = utf16_of_code_point cp ++ utf8_decode_from U8Start r.
Proof.
  intros [Hmax Hsur]. unfold utf8_of_code_point.
  destruct (N.ltb_spec cp 0x80) as [H1|H1].
  - cbn [app]. rewrite decode_start_1 by exact H1.
    unfold utf16_of_code_point. cmp_true (cp <? 65536). reflexivity.
  - destruct (N.ltb_spec cp 0x800) as [H2|H2].
    + cbn [app]. rewrite decode_start_2 by lia_div.
      rewrite decode_cont_last by lia_div.
      f_equal. f_equal. lia_div.
    + destruct (N.ltb_spec cp 0x10000) as [H3|H3].
      * cbn [app]. rewrite decode_start_3 by lia_div.
        rewrite decode_cont_more.
        -- rewrite decode_cont_last by lia_div. f_equal. f_equal. lia_div.
        -- destruct (N.eqb_spec (224 + cp / 4096) 224);
             destruct (N.eqb_spec (224 + cp / 4096) 237); lia_div.
        -- lia_div.
      * cbn [app]. rewrite decode_start_4 by lia_div.
        rewrite decode_cont_more.
        -- rewrite decode_cont_more by lia_div.
           rewrite decode_cont_last by lia_div. f_equal. f_equal. lia_div.
        -- destruct (N.eqb_spec (240 + cp / 262144) 240);
             destruct (N.eqb_spec (240 + cp / 262144) 244); lia_div.
        -- lia_div.
Qed.

Lemma surrogate_bounds (u : N) :
  (is_high_surrogate u = true <-> 0xD800 <= u <= 0xDBFF)
  /\ (is_low_surrogate u = true <-> 0xDC00 <= u <= 0xDFFF).
Proof.
  unfold is_high_surrogate, is_low_surrogate.
  rewrite !andb_true_iff, !N.leb_le. tauto.
Qed.

Lemma utf8_decode_unit (u : N) (r : list byte) :
  is_high_surrogate u = false -> is_low_surrogate u = false -> u < 0x10000 ->
  utf8_decode_from U8Start (utf8_of_code_point u ++ r)
  = u :: utf8_decode_from U8Start r.
Proof.
  intros Hh Hl Hu. rewrite utf8_decode_code_point.
  - unfold utf16_of_code_point. cmp_true (u <? 65536). reflexivity.
  - split; [lia|]. intro Hs.
    destruct (surrogate_bounds u) as [[_ H1] [_ H2]].
    destruct (N.le_gt_cases u 0xDBFF).
    + rewrite H1 in Hh by lia. discriminate.
    + rewrite H2 in Hl by lia. discriminate.
Qed.

Lemma utf8_decode_pair (u v : N) (r : list byte) :
  is_high_surrogate u = true -> is_low_surrogate v = true ->
  utf8_decode_from U8Start
    (utf8_of_code_point (0x10000 + (u - 0xD800) * 0x400 + (v - 0xDC00)) ++ r)
  = u :: v :: utf8_decode_from U8Start r.
Proof.
  intros Hu Hv.
  apply (proj1 (surrogate_bounds u)) in Hu.
  apply (proj2 (surrogate_bounds v)) in Hv.
  rewrite utf8_decode_code_point by (unfold scalar; lia).
  unfold utf16_of_code_point.
  cmp_false (65536 + (u - 55296) * 1024 + (v - 56320) <? 65536).
  cbn [app]. f_equal; [|f_equal]; lia_div.
Qed.

(** [Buffer.from(str, 'utf8').toString('utf8')] is [str] when [str] has no
    unpaired surrogate. *)
Lemma utf8_decode_encode (s : jsstring) :
  Terms.well_formed s = true -> utf8_decode (utf8_encode s) = s.
Proof.
  unfold utf8_decode.
  induction s as [| x | x y l IHl IHyl] using list_ind2.
  - reflexivity.
  - cbn [Terms.well_formed utf8_encode].
    destruct (is_high_surrogate x) eqn:Hh; [discriminate|].
    intro H. apply andb_true_iff in H as [H _].
    apply andb_true_iff in H as [Hx Hl].
    apply N.ltb_lt in Hx. apply negb_true_iff in Hl. rewrite Hl.
    now rewrite utf8_decode_unit.
  - cbn [Terms.well_formed]. intro H.
    change (utf8_encode (x :: y :: l))
      with (if is_high_surrogate x
            then (if is_low_surrogate y
                  then utf8_of_code_point
                         (0x10000 + (x - 0xD800) * 0x400 + (y - 0xDC00))
                       ++ utf8_encode l
                  else replacement_bytes ++ utf8_encode (y :: l))
            else if is_low_surrogate x
                 then replacement_bytes ++ utf8_encode (y :: l)
                 else utf8_of_code_point x ++ utf8_encode (y :: l)).
    destruct (is_high_surrogate x) eqn:Hh.
    + apply andb_true_iff in H as [Hy Hwf]. rewrite Hy.
      rewrite utf8_decode_pair by assumption. now rewrite IHl.
    + apply andb_true_iff in H as [H Hwf].
      apply andb_true_iff in H as [Hx Hl].
      apply N.ltb_lt in Hx. apply negb_true_iff in Hl. rewrite Hl.
      rewrite utf8_decode_unit by assumption. now rewrite IHyl.
Qed.

End Utf8.

(** ** Encryption and decryption (C9, C2) *)

Section Codec.
Import Markdown.

(** What [aesEncryptiv] returns, [aesDecryptiv] turns back into the string,
    under any key, when the string has no unpaired surrogate. *)
Lemma aesDecryptiv_aesEncryptiv (x key c : jsstring) :
  Terms.well_formed x = true ->
  aesEncryptiv x key = Ok c ->
  aesDecryptiv c key = Ok x.
Proof.
  intros Hwf. unfold aesEncryptiv, aesDecryptiv.
  destruct (AES.cipheriv_aes_128_cbc (Buf.hex_decode key) (Buf.hex_decode key)
              (Buf.utf8_encode x)) as [ct|] eqn:E; [|discriminate].
  intro H. injection H as <-.
  rewrite base64_decode_encode.
  rewrite (decipheriv_cipheriv _ _ _ _ E).
  now rewrite utf8_decode_encode.
Qed.

(** The ciphertext is as long as the padded text: there is no room in it for
    an initialization vector. *)
Lemma length_ciphertext (ks : list AES.state) (iv : AES.state) (data : list byte) :
  length (concat (map AES.bytes_of_state
            (AES.cbc_encrypt ks iv (fst (AES.split_blocks (AES.pkcs7_pad data))))))
  = (16 * (length data / 16 + 1))%nat.
Proof.
  rewrite length_concat_blocks, length_cbc_encrypt.
  destruct (split_blocks_whole (AES.pkcs7_pad data)) as [_ Hp].
  { rewrite length_pkcs7_pad. now rewrite Nat.mul_comm, Nat.Div0.mod_mul. }
  rewrite <- length_concat_blocks, <- Hp. apply length_pkcs7_pad.
Qed.

End Codec.

(** *** Unpaired surrogates *)

Section WellFormed.
Import Buf Terms.

Lemma utf8_encode_cons_plain (u : N) (r : jsstring) :
  is_high_surrogate u = false -> is_low_surrogate u = false ->
  utf8_encode (u :: r) = utf8_of_code_point u ++ utf8_encode r.
Proof. intros H L. cbn [utf8_encode]. now rewrite H, L. Qed.

Lemma utf8_encode_cons_low (u : N) (r : jsstring) :
  is_high_surrogate u = false -> is_low_surrogate u = true ->
  utf8_encode (u :: r) = replacement_bytes ++ utf8_encode r.
Proof. intros H L. cbn [utf8_encode]. now rewrite H, L. Qed.

Lemma utf8_encode_cons_replacement (r : jsstring) :
  utf8_encode (0xFFFD :: r) = replacement_bytes ++ utf8_encode r.
Proof. reflexivity. Qed.

Lemma utf8_encode_cons_pair (u v : N) (r : jsstring) :
  is_high_surrogate u = true -> is_low_surrogate v = true ->
  utf8_encode (u :: v :: r)
  = utf8_of_code_point (0x10000 + (u - 0xD800) * 0x400 + (v - 0xDC00))
    ++ utf8_encode r.
Proof. intros H L. cbn [utf8_encode]. now rewrite H, L. Qed.

Lemma utf8_encode_cons_high_alone (u v : N) (r : jsstring) :
  is_high_surrogate u = true -> is_low_surrogate v = false ->
  utf8_encode (u :: v :: r) = replacement_bytes ++ utf8_encode (v :: r).
Proof. intros H L. cbn [utf8_encode]. rewrite H, L. reflexivity. Qed.

Lemma toWellFormed_cons_pair (u v : N) (r : jsstring) :
  is_high_surrogate u = true -> is_low_surrogate v = true ->
  toWellFormed (u :: v :: r) = u :: v :: toWellFormed r.
Proof. intros H L. cbn [toWellFormed]. now rewrite H, L. Qed.

Lemma toWellFormed_cons_high_alone (u v : N) (r : jsstring) :
  is_high_surrogate u = true -> is_low_surrogate v = false ->
  toWellFormed (u :: v :: r) = 0xFFFD :: toWellFormed (v :: r).
Proof. intros H L. cbn [toWellFormed]. rewrite H, L. reflexivity. Qed.

Lemma toWellFormed_cons_low (u : N) (r : jsstring) :
  is_high_surrogate u = false -> is_low_surrogate u = true ->
  toWellFormed (u :: r) = 0xFFFD :: toWellFormed r.
Proof. intros H L. cbn [toWellFormed]. now rewrite H, L. Qed.

Lemma toWellFormed_cons_plain (u : N) (r : jsstring) :
  is_high_surrogate u = false -> is_low_surrogate u = false ->
  toWellFormed (u :: r) = u :: toWellFormed r.
Proof. intros H L. cbn [toWellFormed]. now rewrite H, L. Qed.

Lemma well_formed_cons_plain (u : N) (r : jsstring) :
  is_high_surrogate u = false ->
  well_formed (u :: r)
  = (u <? 0x10000) && negb (is_low_surrogate u) && well_formed r.
Proof. intro H. cbn [well_formed]. now rewrite H. Qed.

Lemma well_formed_cons_pair (u v : N) (r : jsstring) :
  is_high_surrogate u = true ->
  well_formed (u :: v :: r) = is_low_surrogate v && well_formed r.
Proof. intro H. cbn [well_formed]. now rewrite H. Qed.

(** [Buffer.from(str, 'utf8')] does not tell a string from its well-formed
    version. *)
Lemma utf8_encode_toWellFormed (s : jsstring) :
  utf8_encode (toWellFormed s) = utf8_encode s.
Proof.
  induction s as [| x | x y l IHl IHyl] using list_ind2.
  - reflexivity.
  - cbn [toWellFormed utf8_encode].
    destruct (is_high_surrogate x) eqn:Hx; [reflexivity|].
    destruct (is_low_surrogate x) eqn:Lx; [reflexivity|].
    cbn [utf8_encode]. now rewrite Hx, Lx.
  - destruct (is_high_surrogate x) eqn:Hx.
    + destruct (is_low_surrogate y) eqn:Ly.
      * rewrite toWellFormed_cons_pair by assumption.
        rewrite !utf8_encode_cons_pair by assumption. now rewrite IHl.
      * rewrite toWellFormed_cons_high_alone by assumption.
        rewrite utf8_encode_cons_replacement, IHyl.
        now rewrite (utf8_encode_cons_high_alone x y l).
    + destruct (is_low_surrogate x) eqn:Lx.
      * rewrite toWellFormed_cons_low by assumption.
        rewrite utf8_encode_cons_replacement, IHyl.
        now rewrite (utf8_encode_cons_low x (y :: l)).
      * rewrite toWellFormed_cons_plain by assumption.
        rewrite !(utf8_encode_cons_plain x) by assumption. now rewrite IHyl.
Qed.

Lemma well_formed_toWellFormed (s : jsstring) :
  code_units s = true -> well_formed (toWellFormed s) = true.
Proof.
  induction s as [| x | x y l IHl IHyl] using list_ind2.
  - reflexivity.
  - cbn [code_units forallb toWellFormed]. rewrite andb_true_r. intro Hu.
    destruct (is_high_surrogate x) eqn:Hx; [reflexivity|].
    destruct (is_low_surrogate x) eqn:Lx; [reflexivity|].
    cbn [well_formed]. now rewrite Hx, Hu, Lx.
  - intro Hu. unfold code_units in Hu. cbn [forallb] in Hu.
    apply andb_true_iff in Hu as [Hx' Hyl].
    assert (Hl : code_units l = true)
      by now apply andb_true_iff in Hyl as [_ Hl].
    change (code_units (y :: l) = true) in Hyl.
    destruct (is_high_surrogate x) eqn:Hx.
    + destruct (is_low_surrogate y) eqn:Ly.
      * rewrite toWellFormed_cons_pair by assumption.
        rewrite well_formed_cons_pair by assumption.
        now rewrite Ly, (IHl Hl).
      * rewrite toWellFormed_cons_high_alone by assumption.
        rewrite well_formed_cons_plain by reflexivity.
        now rewrite (IHyl Hyl).
    + destruct (is_low_surrogate x) eqn:Lx.
      * rewrite toWellFormed_cons_low by assumption.
        rewrite well_formed_cons_plain by reflexivity.
        now rewrite (IHyl Hyl).
      * rewrite toWellFormed_cons_plain by assumption.
        rewrite well_formed_cons_plain by assumption.
        now rewrite Hx', Lx, (IHyl Hyl).
Qed.

Lemma toWellFormed_well_formed (s : jsstring) :
  well_formed s = true -> toWellFormed s = s.
Proof.
  induction s as [| x | x y l IHl IHyl] using list_ind2.
  - reflexivity.
  - cbn [well_formed toWellFormed].
    destruct (is_high_surrogate x); [discriminate|].
    destruct (is_low_surrogate x); [|reflexivity].
    rewrite andb_false_r. discriminate.
  - destruct (is_high_surrogate x) eqn:Hx.
    + rewrite well_formed_cons_pair by assumption.
      intro H. apply andb_true_iff in H as [Ly Hl].
      rewrite toWellFormed_cons_pair by assumption. now rewrite (IHl Hl).
    + rewrite well_formed_cons_plain by assumption.
      intro H. apply andb_true_iff in H as [H Hyl].
      apply andb_true_iff in H as [_ Lx]. apply negb_true_iff in Lx.
      rewrite toWellFormed_cons_plain by assumption. now rewrite (IHyl Hyl).
Qed.

End WellFormed.

Section RoundTripInGeneral.
Import Markdown Terms.

Lemma aesEncryptiv_toWellFormed (x key : jsstring) :
  aesEncryptiv (toWellFormed x) key = aesEncryptiv x key.
Proof. unfold aesEncryptiv. now rewrite utf8_encode_toWellFormed. Qed.

End RoundTripInGeneral.

(** C9, as the code has it.  For every content string without unpaired
    surrogates, the encryption under the process-wide key succeeds and its
    decryption under that key returns the string.  For every string, the
    decryption returns the string with each unpaired surrogate replaced by
    U+FFFD; that is the string itself exactly when it has no unpaired
    surrogate. *)
Theorem C9_decrypt_inverts_encrypt (x : jsstring) :
  (Terms.well_formed x = true ->
   exists c,
     Markdown.aesEncryptiv x Markdown.mm = Ok c
     /\ Markdown.aesDecryptiv c Markdown.mm = Ok x)
  /\ (Terms.code_units x = true ->
      exists c,
        Markdown.aesEncryptiv x Markdown.mm = Ok c
        /\ Markdown.aesDecryptiv c Markdown.mm = Ok (Terms.toWellFormed x)
        /\ (Terms.toWellFormed x = x <-> Terms.well_formed x = true)).
Proof.
  split.
  - intro Hwf. destruct (aesEncryptiv_mm_total x) as [c Hc].
    exists c. split; [exact Hc|].
    now apply aesDecryptiv_aesEncryptiv with (x := x).
  - intro Hu. destruct (aesEncryptiv_mm_total x) as [c Hc].
    exists c. split; [exact Hc|].
    pose proof (well_formed_toWellFormed x Hu) as Hwf.
    split.
    + apply aesDecryptiv_aesEncryptiv with (x := Terms.toWellFormed x).
      * exact Hwf.
      * now rewrite aesEncryptiv_toWellFormed.
    + split.
      * intro E. now rewrite E in Hwf.
      * apply toWellFormed_well_formed.
Qed.

Lemma C9_decrypt_inverts_encrypt_witness :
  exists c,
    Markdown.aesEncryptiv (js "hello") Markdown.mm = Ok c
    /\ Markdown.aesDecryptiv c Markdown.mm = Ok (js "hello").
Proof.
  apply (proj1 (C9_decrypt_inverts_encrypt (js "hello"))).
  vm_compute. reflexivity.
Defined.

(** C9 as stated fails on a string with an unpaired surrogate: the UTF-8
    encoding that precedes the cipher writes it as U+FFFD, and that is what
    the decryption returns. *)
Lemma C9_counterexample_lone_surrogate :
  exists c,
    Markdown.aesEncryptiv [0xD800] Markdown.mm = Ok c
    /\ Markdown.aesDecryptiv c Markdown.mm = Ok [0xFFFD].
Proof.
  eexists. split.
  - vm_compute. reflexivity.
  - vm_compute. reflexivity.
Qed.

(** C2, as the code has it.  The encryption of the save path is a function
    of the content and the key alone: the initialization vector is the key
    itself, the ciphertext is the CBC encryption of the padded UTF-8 text and
    nothing more (no vector is stored with it), and two contents without
    unpaired surrogates have the same ciphertext only if they are equal. *)
Theorem C2_encryption_is_deterministic (x : jsstring) :
  exists k ciphertext,
    AES.state_of_bytes (Buf.hex_decode Markdown.mm) = Some k
    /\ ciphertext
       = concat (map AES.bytes_of_state
           (AES.cbc_encrypt (AES.KeyExpansion k) k
              (fst (AES.split_blocks (AES.pkcs7_pad (Buf.utf8_encode x))))))
    /\ Markdown.aesEncryptiv x Markdown.mm = Ok (Buf.base64_encode ciphertext)
    /\ length ciphertext = (16 * (length (Buf.utf8_encode x) / 16 + 1))%nat
    /\ (forall y,
          Terms.well_formed x = true -> Terms.well_formed y = true ->
          Markdown.aesEncryptiv y Markdown.mm = Markdown.aesEncryptiv x Markdown.mm ->
          y = x).
Proof.
  destruct mm_is_a_key as [k Hk]. exists k. eexists.
  split; [exact Hk|]. split; [reflexivity|]. split; [|split].
  - unfold Markdown.aesEncryptiv, AES.cipheriv_aes_128_cbc. now rewrite Hk.
  - apply length_ciphertext.
  - intros y Hx Hy E.
    destruct (aesEncryptiv_mm_total x) as [c Hc].
    pose proof (aesDecryptiv_aesEncryptiv x Markdown.mm c Hx Hc) as Dx.
    rewrite Hc in E.
    pose proof (aesDecryptiv_aesEncryptiv y Markdown.mm c Hy E) as Dy.
    congruence.
Qed.

Lemma C2_encryption_is_deterministic_witness :
  exists c,
    Markdown.aesEncryptiv (js "hello") Markdown.mm = Ok (Buf.base64_encode c)
    /\ length c = 16%nat.
Proof.
  destruct (C2_encryption_is_deterministic (js "hello"))
    as (k & c & _ & _ & Henc & Hlen & _).
  exists c. split; [exact Henc|]. rewrite Hlen. vm_compute. reflexivity.
Defined.

(** C2 as stated fails: two encryptions of [hello] give the same
    ciphertext. *)
Lemma C2_counterexample_same_ciphertext :
  let first := Markdown.aesEncryptiv (js "hello") Markdown.mm in
  let second := Markdown.aesEncryptiv (js "hello") Markdown.mm in
  first = Ok (js "h9nF+oNFid1dvr1OJFM1Eg==") /\ second = first.
Proof. split; vm_compute; reflexivity. Qed.

(* ================================================================== *)
(** * Part III: further properties of the code                         *)
(* ================================================================== *)

(** ** Keys of the codec *)

Section Keys.
Import Buf Markdown.

Lemma state_of_bytes_Some (bs : list byte) (k : AES.state) :
  AES.state_of_bytes bs = Some k -> length bs = 16%nat.
Proof.
  unfold AES.state_of_bytes. intro H.
  destruct (split_blocks_spec bs) as [E _].
  destruct (AES.split_blocks bs) as [bl rest].
  destruct bl as [|s [|s' bl]]; try discriminate.
  destruct rest; [|discriminate].
  cbn [fst snd] in E. rewrite E. reflexivity.
Qed.

Lemma state_of_bytes_16 (bs : list byte) :
  length bs = 16%nat -> exists k, AES.state_of_bytes bs = Some k.
Proof.
  intro H.
  do 16 (destruct bs as [|? bs]; [discriminate|]).
  destruct bs; [|discriminate]. eexists. reflexivity.
Qed.

Lemma state_of_bytes_None (bs : list byte) :
  length bs <> 16%nat -> AES.state_of_bytes bs = None.
Proof.
  intro H. destruct (AES.state_of_bytes bs) as [k|] eqn:E; [|reflexivity].
  now apply state_of_bytes_Some in E.
Qed.

Lemma length_hex_decode (s : jsstring) :
  (2 * length (hex_decode s) <= length s)%nat.
Proof.
  induction s as [| x | x y l IHl _] using list_ind2.
  - simpl. lia.
  - simpl. lia.
  - cbn [hex_decode].
    destruct (hex_digit x); [|simpl; lia].
    destruct (hex_digit y); simpl; lia.
Qed.

End Keys.

(** X1.  [aesEncryptiv] and [aesDecryptiv] work only with a key whose hex
    digits make 16 bytes: with such a key the encryption cannot fail; with
    any other key, in particular one of fewer than 32 characters, both throw
    "Invalid initialization vector" before they look at the text, because
    the key is the vector too and the vector is checked first.  "Invalid key
    length" is never thrown. *)
Theorem X1_codec_needs_a_16_byte_key (str key : jsstring) :
  (length (Buf.hex_decode key) = 16%nat ->
   exists c, Markdown.aesEncryptiv str key = Ok c)
  /\ (length (Buf.hex_decode key) <> 16%nat ->
      Markdown.aesEncryptiv str key = Throw AES.InvalidIV
      /\ Markdown.aesDecryptiv str key = Throw AES.InvalidIV)
  /\ ((length key < 32)%nat ->
      Markdown.aesEncryptiv str key = Throw AES.InvalidIV
      /\ Markdown.aesDecryptiv str key = Throw AES.InvalidIV)
  /\ Markdown.aesEncryptiv str key <> Throw AES.InvalidKeyLength
  /\ Markdown.aesDecryptiv str key <> Throw AES.InvalidKeyLength.
Proof.
  assert (Hbad : length (Buf.hex_decode key) <> 16%nat ->
                 Markdown.aesEncryptiv str key = Throw AES.InvalidIV
                 /\ Markdown.aesDecryptiv str key = Throw AES.InvalidIV).
  { intro H. apply state_of_bytes_None in H.
    unfold Markdown.aesEncryptiv, Markdown.aesDecryptiv,
      AES.cipheriv_aes_128_cbc, AES.decipheriv_aes_128_cbc.
    now rewrite H. }
  split; [|split; [|split; [|split]]].
  - intro H. destruct (state_of_bytes_16 _ H) as [k Hk].
    unfold Markdown.aesEncryptiv, AES.cipheriv_aes_128_cbc. rewrite Hk.
    eexists. reflexivity.
  - exact Hbad.
  - intro H. apply Hbad. pose proof (length_hex_decode key). lia.
  - unfold Markdown.aesEncryptiv, AES.cipheriv_aes_128_cbc.
    destruct (AES.state_of_bytes (Buf.hex_decode key)); discriminate.
  - unfold Markdown.aesDecryptiv, AES.decipheriv_aes_128_cbc.
    destruct (AES.state_of_bytes (Buf.hex_decode key)); [|discriminate].
    destruct (AES.split_blocks _) as [[|b bl] [|r rest]]; try discriminate.
    destruct (AES.pkcs7_unpad _); discriminate.
Qed.

Lemma X1_codec_needs_a_16_byte_key_witness :
  Markdown.aesEncryptiv (js "hello") (js "157016ad77a8f12fe276db44226b35")
  = Throw AES.InvalidIV
  /\ Markdown.aesDecryptiv (js "hello") (js "157016ad77a8f12fe276db44226b35")
     = Throw AES.InvalidIV.
Proof.
  apply (proj1 (proj2 (proj2 (X1_codec_needs_a_16_byte_key (js "hello")
                  (js "157016ad77a8f12fe276db44226b35"))))).
  simpl. lia.
Defined.

(** X2.  Under every key, not only the process-wide one: when
    [aesEncryptiv] returns a ciphertext for a string without unpaired
    surrogates, [aesDecryptiv] with the same key returns the string. *)
Theorem X2_round_trip_under_any_key (x key c : jsstring) :
  Terms.well_formed x = true ->
  Markdown.aesEncryptiv x key = Ok c ->
  Markdown.aesDecryptiv c key = Ok x.
Proof. apply aesDecryptiv_aesEncryptiv. Qed.

Lemma X2_round_trip_under_any_key_witness :
  Markdown.aesDecryptiv (js "Hf6DbfcOiTEKlwox+jNR/Q==")
    (js "000102030405060708090a0b0c0d0e0f") = Ok (js "hello").
Proof.
  apply (X2_round_trip_under_any_key (js "hello")
           (js "000102030405060708090a0b0c0d0e0f")).
  - vm_compute. reflexivity.
  - vm_compute. reflexivity.
Defined.

(** X3.  Under the process-wide key [aesDecryptiv] throws "wrong final block
    length" exactly when the base64 text decodes to no byte at all or to a
    number of bytes that is not a multiple of 16. *)
Theorem X3_decrypt_wrong_final_block_length (str : jsstring) :
  Markdown.aesDecryptiv str Markdown.mm = Throw AES.WrongFinalBlockLength
  <-> (Buf.base64_decode str = []
       \/ (length (Buf.base64_decode str) mod 16 <> 0)%nat).
Proof.
  unfold Markdown.aesDecryptiv, AES.decipheriv_aes_128_cbc.
  destruct mm_is_a_key as [k ->].
  set (data := Buf.base64_decode str).
  destruct (split_blocks_spec data) as [E L].
  destruct (AES.split_blocks data) as [bl rest]. cbn [fst snd] in E, L.
  assert (Hlen : length data = (16 * length bl + length rest)%nat)
    by (rewrite E at 1; now rewrite length_app, length_concat_blocks).
  destruct bl as [|b bl].
  - split; [|reflexivity]. intros _. cbn [map concat app] in E.
    destruct rest as [|r rest]; [now left|].
    right. rewrite Hlen. cbn [length Nat.mul Nat.add].
    cbn [length] in L. rewrite Nat.mod_small by lia. lia.
  - destruct rest as [|r rest].
    + split.
      * destruct (AES.pkcs7_unpad _); discriminate.
      * intros [H|H].
        -- rewrite H in Hlen. simpl in Hlen. lia.
        -- exfalso. apply H. rewrite Hlen. cbn [length].
           rewrite Nat.add_0_r, Nat.mul_comm. apply Nat.Div0.mod_mul.
    + split; [|reflexivity]. intros _. right. rewrite Hlen.
      rewrite Nat.add_comm, Nat.mul_comm, Nat.Div0.mod_add.
      rewrite Nat.mod_small by exact L. cbn [length]. lia.
Qed.

(** ** The unused pair [aesEncrypt], [aesDecrypt] *)

Section Ecb.
Import Buf.

Lemma length_le_bytes (n : nat) (x : N) : length (MD5.le_bytes n x) = n.
Proof. revert x. induction n; intro x; simpl; auto. Qed.

Lemma length_md5 (m : list byte) : length (MD5.md5 m) = 16%nat.
Proof.
  unfold MD5.md5.
  destruct (MD5.chunks _ _ _) as [[[a b] c] d].
  now rewrite !length_app, !length_le_bytes.
Qed.

Lemma bytes_to_key_is_a_key (password : list byte) :
  exists k, AES.state_of_bytes (EVP.bytes_to_key password) = Some k.
Proof.
  apply state_of_bytes_16. unfold EVP.bytes_to_key.
  rewrite length_firstn, length_md5. reflexivity.
Qed.

Lemma map_InvCipher_Cipher (ks : list AES.state) (bl : list AES.state) :
  map (AES.InvCipher ks) (map (AES.Cipher ks) bl) = bl.
Proof.
  induction bl as [|b bl IH]; [reflexivity|].
  cbn [map]. now rewrite InvCipher_Cipher, IH.
Qed.

Lemma decipher_cipher_ecb (password data c : list byte) :
  EVP.cipher_aes_128_ecb password data = Ok c ->
  EVP.decipher_aes_128_ecb password c = Ok data.
Proof.
  unfold EVP.cipher_aes_128_ecb, EVP.decipher_aes_128_ecb.
  destruct (AES.state_of_bytes (EVP.bytes_to_key password)) as [k|];
    [|discriminate].
  intro H. injection H as <-.
  rewrite split_blocks_concat.
  destruct (split_blocks_whole (AES.pkcs7_pad data)) as [_ Hp].
  { rewrite length_pkcs7_pad. now rewrite Nat.mul_comm, Nat.Div0.mod_mul. }
  remember (fst (AES.split_blocks (AES.pkcs7_pad data))) as bl eqn:Ebl.
  destruct bl as [|p bl'].
  - exfalso. apply (f_equal (@length byte)) in Hp.
    rewrite length_pkcs7_pad in Hp. simpl in Hp. lia.
  - destruct (map (AES.Cipher (AES.KeyExpansion k)) (p :: bl')) as [|c r]
      eqn:Eenc; [discriminate|].
    rewrite <- Eenc, map_InvCipher_Cipher, <- Hp, pkcs7_unpad_pad.
    reflexivity.
Qed.

End Ecb.

(** X4.  [aesEncrypt] accepts every key, since the cipher key is the MD5
    digest of the key string, and [aesDecrypt] with the same key returns the
    string when it has no unpaired surrogate. *)
Theorem X4_aesEncrypt_round_trip (str key : jsstring) :
  exists c,
    Markdown.aesEncrypt str key = Ok c
    /\ (Terms.well_formed str = true -> Markdown.aesDecrypt c key = Ok str).
Proof.
  unfold Markdown.aesEncrypt, Markdown.aesDecrypt.
  destruct (EVP.cipher_aes_128_ecb (Buf.utf8_encode key) (Buf.utf8_encode str))
    as [ct|e] eqn:E.
  - exists (Buf.base64_encode ct). split; [reflexivity|]. intro Hwf.
    rewrite base64_decode_encode, (decipher_cipher_ecb _ _ _ E).
    now rewrite utf8_decode_encode.
  - exfalso. unfold EVP.cipher_aes_128_ecb in E.
    destruct (bytes_to_key_is_a_key (Buf.utf8_encode key)) as [k Hk].
    rewrite Hk in E. discriminate.
Qed.

Lemma X4_aesEncrypt_round_trip_witness :
  exists c,
    Markdown.aesEncrypt (js "hello") [] = Ok c
    /\ Markdown.aesDecrypt c [] = Ok (js "hello").
Proof.
  destruct (X4_aesEncrypt_round_trip (js "hello") []) as [c [Hc Hd]].
  exists c. split; [exact Hc|]. apply Hd. vm_compute. reflexivity.
Defined.

(** ** Conversions of line endings *)

Section Conversions.
Import Markdown Terms.

Lemma getLineEnding_cases (lineEnding : jsstring) :
  (str_eqb lineEnding (js "crlf") = true /\ getLineEnding lineEnding = [CR; LF])
  \/ (str_eqb lineEnding (js "crlf") = false /\ getLineEnding lineEnding = [LF]).
Proof.
  unfold getLineEnding.
  destruct (str_eqb lineEnding (js "lf")) eqn:E1.
  - apply str_eqb_eq in E1. subst. right. split; reflexivity.
  - destruct (str_eqb lineEnding (js "crlf")); [left|right]; split; reflexivity.
Qed.

Lemma replace_cons_other (c : N) (s eol : jsstring) :
  c <> LF -> c <> CR ->
  replace_LINE_ENDING_REG (c :: s) eol = c :: replace_LINE_ENDING_REG s eol.
Proof.
  intros Hl Hc. cbn [replace_LINE_ENDING_REG].
  apply N.eqb_neq in Hl, Hc. rewrite Hl, Hc.
  now destruct s.
Qed.

Lemma replace_cons_LF (s eol : jsstring) :
  replace_LINE_ENDING_REG (LF :: s) eol = eol ++ replace_LINE_ENDING_REG s eol.
Proof. reflexivity. Qed.

Lemma replace_cons_CRLF (s eol : jsstring) :
  replace_LINE_ENDING_REG (CR :: LF :: s) eol
  = eol ++ replace_LINE_ENDING_REG s eol.
Proof. reflexivity. Qed.

Lemma no_CR_cons (c : N) (s : jsstring) :
  ~ In CR (c :: s) -> c <> CR /\ ~ In CR s.
Proof. intro H. split; intro E; apply H; [left; now symmetry|now right]. Qed.

Lemma no_CR_no_CRLF (s : jsstring) :
  ~ In CR s -> CRLF_LINE_ENDING_REG_test s = false.
Proof.
  induction s as [|c r IH]; [reflexivity|].
  intro H. apply no_CR_cons in H as [Hc Hr].
  cbn [CRLF_LINE_ENDING_REG_test]. destruct r as [|d r']; [reflexivity|].
  apply N.eqb_neq in Hc. rewrite Hc. cbn [andb]. now apply IH.
Qed.

(** Without carriage returns the replacement rewrites the line feeds one by
    one. *)
Lemma replace_no_CR (s eol : jsstring) :
  ~ In CR s ->
  replace_LINE_ENDING_REG s eol
  = flat_map (fun c => if c =? LF then eol else [c]) s.
Proof.
  induction s as [|c r IH]; [reflexivity|].
  intro H. apply no_CR_cons in H as [Hc Hr]. cbn [flat_map].
  destruct (N.eqb_spec c LF) as [->|Hl].
  - rewrite replace_cons_LF. now rewrite IH.
  - rewrite replace_cons_other by assumption. now rewrite IH.
Qed.

Lemma replace_back (s : jsstring) :
  ~ In CR s ->
  replace_LINE_ENDING_REG (replace_LINE_ENDING_REG s [CR; LF]) [LF] = s.
Proof.
  intro H. rewrite (replace_no_CR s [CR; LF] H).
  induction s as [|c r IH]; [reflexivity|].
  apply no_CR_cons in H as [Hc Hr]. cbn [flat_map].
  destruct (N.eqb_spec c LF) as [->|Hl].
  - cbn [app]. rewrite replace_cons_CRLF. cbn [app]. now rewrite IH.
  - cbn [app]. rewrite replace_cons_other by assumption. now rewrite IH.
Qed.

Lemma convert_then_normalize (s lineEnding : jsstring) :
  ~ In CR s ->
  replace_LINE_ENDING_REG (convertLineEndings s lineEnding) [LF] = s.
Proof.
  intro H. unfold convertLineEndings.
  destruct (getLineEnding_cases lineEnding) as [[_ ->]|[_ ->]].
  - now apply replace_back.
  - rewrite !replace_LINE_ENDING_REG_no_CRLF; auto using no_CR_no_CRLF.
    rewrite replace_LINE_ENDING_REG_no_CRLF; auto using no_CR_no_CRLF.
Qed.

End Conversions.

(** X5.  [convertLineEndings] leaves a text without CRLF pair as it is when
    the target is ['lf'], or any value other than ['crlf'] (which the
    fallback of [getLineEnding] treats as ['lf']). *)
Theorem X5_convert_to_lf_keeps_lf_text (text lineEnding : jsstring) :
  Markdown.CRLF_LINE_ENDING_REG_test text = false ->
  str_eqb lineEnding (js "crlf") = false ->
  Markdown.convertLineEndings text lineEnding = text.
Proof.
  intros Ht Hl. unfold Markdown.convertLineEndings.
  destruct (getLineEnding_cases lineEnding) as [[E _]|[_ ->]]; [congruence|].
  now apply replace_LINE_ENDING_REG_no_CRLF.
Qed.

Lemma X5_convert_to_lf_keeps_lf_text_witness :
  Markdown.convertLineEndings (js "a" ++ [LF; CR] ++ js "b") (js "cr")
  = js "a" ++ [LF; CR] ++ js "b".
Proof.
  apply X5_convert_to_lf_keeps_lf_text; reflexivity.
Defined.

(** X6.  For a text without carriage returns, converting to any line ending
    and then back to ['lf'] returns the text: what a save writes with
    [adjustLineEndingOnSave], a load normalizes back. *)
Theorem X6_convert_and_back (text lineEnding : jsstring) :
  ~ In CR text ->
  Markdown.convertLineEndings
    (Markdown.convertLineEndings text lineEnding) (js "lf") = text.
Proof.
  intro H. rewrite convertLineEndings_lf. now apply convert_then_normalize.
Qed.

Lemma X6_convert_and_back_witness :
  Markdown.convertLineEndings
    (Markdown.convertLineEndings (js "a" ++ [LF] ++ js "b" ++ [LF]) (js "crlf"))
    (js "lf")
  = js "a" ++ [LF] ++ js "b" ++ [LF].
Proof.
  apply X6_convert_and_back.
  intro H. repeat (destruct H as [H|H]; [discriminate|]). exact H.
Defined.

(** ** A save followed by a load, and a load followed by a save *)

Section RoundTrips.
Import Markdown Terms.

Lemma writeMarkdownFile_savedText iconv_encode pathname content options call :
  writeMarkdownFile iconv_encode pathname content options = Ok call ->
  exists text,
    savedText pathname content options = Ok text
    /\ write_buffer call
       = iconv_encode text (encoding (options_encoding options))
           (isBom (options_encoding options))
    /\ write_pathname call = pathname.
Proof.
  unfold writeMarkdownFile, savedText. cbv zeta.
  destruct (if str_eqb _ (js ".mde") then _ else _) as [t|e]; [|discriminate].
  intro H. injection H as <-. exists t. repeat split.
Qed.

Lemma savedText_writeMarkdownFile iconv_encode pathname content options text :
  savedText pathname content options = Ok text ->
  exists call,
    writeMarkdownFile iconv_encode pathname content options = Ok call
    /\ write_buffer call
       = iconv_encode text (encoding (options_encoding options))
           (isBom (options_encoding options)).
Proof.
  unfold writeMarkdownFile, savedText. cbv zeta.
  destruct (if str_eqb _ (js ".mde") then _ else _) as [t|e]; [|discriminate].
  intro H. injection H as <-. eexists. split; reflexivity.
Qed.

Lemma well_formed_eol_app (eol s : jsstring) :
  eol = [LF] \/ eol = [CR; LF] ->
  well_formed (eol ++ s) = well_formed s.
Proof. intros [-> | ->]; reflexivity. Qed.

Lemma high_surrogate_not_LF (x : N) :
  Buf.is_high_surrogate x = true -> (x =? LF) = false.
Proof.
  intro H. destruct (N.eqb_spec x LF) as [->|]; [discriminate|reflexivity].
Qed.

Lemma low_surrogate_not_LF (x : N) :
  Buf.is_low_surrogate x = true -> (x =? LF) = false.
Proof.
  intro H. destruct (N.eqb_spec x LF) as [->|]; [discriminate|reflexivity].
Qed.

Lemma well_formed_flat_map (eol s : jsstring) :
  eol = [LF] \/ eol = [CR; LF] ->
  well_formed s = true ->
  well_formed (flat_map (fun c => if c =? LF then eol else [c]) s) = true.
Proof.
  intro He.
  induction s as [| x | x y l IHl IHyl] using list_ind2.
  - reflexivity.
  - cbn [flat_map]. rewrite app_nil_r.
    destruct (x =? LF); [|auto]. intros _. now destruct He as [-> | ->].
  - intro H. cbn [well_formed] in H.
    destruct (Buf.is_high_surrogate x) eqn:Hx.
    + apply andb_true_iff in H as [Hy Hl].
      cbn [flat_map].
      rewrite (high_surrogate_not_LF x Hx), (low_surrogate_not_LF y Hy).
      cbn [app well_formed]. rewrite Hx, Hy. cbn [andb]. now apply IHl.
    + apply andb_true_iff in H as [Hx' Hyl].
      change (flat_map (fun c => if c =? LF then eol else [c]) (x :: y :: l))
        with ((if x =? LF then eol else [x])
              ++ flat_map (fun c => if c =? LF then eol else [c]) (y :: l)).
      destruct (x =? LF).
      * rewrite well_formed_eol_app by assumption. now apply IHyl.
      * cbn [app well_formed]. rewrite Hx, Hx'. cbn [andb]. now apply IHyl.
Qed.

Lemma well_formed_convertLineEndings (s lineEnding : jsstring) :
  ~ In CR s -> well_formed s = true ->
  well_formed (convertLineEndings s lineEnding) = true.
Proof.
  intros Hcr Hwf. unfold convertLineEndings.
  rewrite replace_no_CR by assumption.
  apply well_formed_flat_map; [|assumption].
  destruct (getLineEnding_cases lineEnding) as [[_ ->]|[_ ->]]; auto.
Qed.

Lemma adjusted_normalized (content : jsstring) (options : Options) :
  ~ In CR content ->
  replace_LINE_ENDING_REG (adjusted content options) [LF] = content.
Proof.
  intro H. unfold adjusted. destruct (adjustLineEndingOnSave options).
  - now apply convert_then_normalize.
  - apply replace_LINE_ENDING_REG_no_CRLF. now apply no_CR_no_CRLF.
Qed.

(** On a pathname on which the two tests for [.mde] agree, a load recovers
    the text of the save. *)
Lemma sourceText_savedText env pathname content options autoGuess buffer text :
  ~ In CR content ->
  (str_eqb (Path.extname pathname) (js ".mde") = true ->
   well_formed content = true) ->
  endsWith pathname (js ".mde") = str_eqb (Path.extname pathname) (js ".mde") ->
  savedText pathname content options = Ok text ->
  decodedText env autoGuess buffer = text ->
  sourceText env pathname autoGuess buffer = adjusted content options.
Proof.
  intros Hcr Hwf Hagree Hsave Hdec.
  unfold sourceText. cbv zeta. rewrite Hdec, Hagree.
  unfold savedText in Hsave. cbv zeta in Hsave.
  rewrite extension_is_mde in Hsave. fold (adjusted content options) in Hsave.
  destruct (str_eqb (Path.extname pathname) (js ".mde")) eqn:E.
  - erewrite aesDecryptiv_aesEncryptiv; [reflexivity| |exact Hsave].
    unfold adjusted. destruct (adjustLineEndingOnSave options); auto.
    apply well_formed_convertLineEndings; auto.
  - now injection Hsave as ->.
Qed.

End RoundTrips.

Section Detection.
Import Markdown Terms.

Lemma LF_from_no_CR (s : jsstring) :
  ~ In CR s -> In LF s -> LF_LINE_ENDING_REG_from false s = true.
Proof.
  induction s as [|c r IH]; [intros _ []|].
  intros Hcr Hlf. apply no_CR_cons in Hcr as [Hc Hr].
  cbn [LF_LINE_ENDING_REG_from negb]. rewrite andb_true_r.
  destruct (N.eqb_spec c LF) as [->|Hl]; [reflexivity|].
  apply N.eqb_neq in Hc. rewrite Hc. apply IH; [assumption|].
  destruct Hlf as [E|Hin]; [congruence|assumption].
Qed.

Lemma LF_from_no_LF (s : jsstring) (prevCR : bool) :
  ~ In LF s -> LF_LINE_ENDING_REG_from prevCR s = false.
Proof.
  revert prevCR. induction s as [|c r IH]; [reflexivity|].
  intros prevCR H. cbn [LF_LINE_ENDING_REG_from].
  destruct (N.eqb_spec c LF) as [->|Hl]; [elim H; now left|].
  cbn [andb]. apply IH. intro Hin. apply H. now right.
Qed.

Lemma LF_from_crlf (s : jsstring) (prevCR : bool) :
  ~ In CR s ->
  LF_LINE_ENDING_REG_from prevCR
    (flat_map (fun c => if c =? LF then [CR; LF] else [c]) s) = false.
Proof.
  revert prevCR. induction s as [|c r IH]; [reflexivity|].
  intros prevCR H. apply no_CR_cons in H as [Hc Hr]. cbn [flat_map].
  destruct (N.eqb_spec c LF) as [->|Hl].
  - cbn [app LF_LINE_ENDING_REG_from]. rewrite eqb_LF_CR_sym.
    cbn [andb]. rewrite !N.eqb_refl. cbn [negb andb].
    rewrite eqb_LF_CR. now apply IH.
  - cbn [app LF_LINE_ENDING_REG_from]. apply N.eqb_neq in Hl. rewrite Hl.
    cbn [andb]. now apply IH.
Qed.

Lemma CRLF_test_crlf (s : jsstring) :
  ~ In CR s -> In LF s ->
  CRLF_LINE_ENDING_REG_test
    (flat_map (fun c => if c =? LF then [CR; LF] else [c]) s) = true.
Proof.
  induction s as [|c r IH]; [intros _ []|].
  intros Hcr Hlf. apply no_CR_cons in Hcr as [Hc Hr]. cbn [flat_map].
  destruct (N.eqb_spec c LF) as [->|Hl]; [reflexivity|].
  destruct Hlf as [E|Hin]; [congruence|].
  specialize (IH Hr Hin). cbn [app].
  destruct (flat_map _ r) as [|d r'] eqn:E; [discriminate|].
  cbn [CRLF_LINE_ENDING_REG_test]. apply N.eqb_neq in Hc. rewrite Hc.
  cbn [andb]. exact IH.
Qed.

(** The line endings that a load detects in the text of a save. *)
Lemma detection_adjusted (content : jsstring) (options : Options) :
  ~ In CR content -> In LF content ->
  let crlf :=
    adjustLineEndingOnSave options && str_eqb (lineEnding options) (js "crlf") in
  LF_LINE_ENDING_REG_test (adjusted content options) = negb crlf
  /\ CRLF_LINE_ENDING_REG_test (adjusted content options) = crlf.
Proof.
  intros Hcr Hlf. cbv zeta. unfold adjusted, LF_LINE_ENDING_REG_test.
  destruct (adjustLineEndingOnSave options); cbn [andb].
  - unfold convertLineEndings.
    destruct (getLineEnding_cases (lineEnding options)) as [[-> ->]|[-> ->]].
    + rewrite replace_no_CR by assumption. split.
      * now apply LF_from_crlf.
      * now apply CRLF_test_crlf.
    + rewrite replace_LINE_ENDING_REG_no_CRLF by now apply no_CR_no_CRLF.
      split; [now apply LF_from_no_CR|now apply no_CR_no_CRLF].
  - split; [now apply LF_from_no_CR|now apply no_CR_no_CRLF].
Qed.

Lemma crs_paired_no_CRLF (s : jsstring) :
  crs_paired s = true -> CRLF_LINE_ENDING_REG_test s = false -> ~ In CR s.
Proof.
  induction s as [|c r IH]; [intros _ _ []|].
  cbn [crs_paired CRLF_LINE_ENDING_REG_test].
  destruct (N.eqb_spec c CR) as [->|Hc].
  - destruct r as [|d r']; [discriminate|].
    intro H. apply andb_true_iff in H as [Hd _]. rewrite Hd. discriminate.
  - intros Hp Ht [E|Hin]; [congruence|].
    destruct r as [|d r']; [destruct Hin|].
    cbn [andb] in Ht. now apply IH.
Qed.

Lemma replace_no_line_ending (s eol : jsstring) :
  ~ In CR s -> ~ In LF s -> replace_LINE_ENDING_REG s eol = s.
Proof.
  intros Hcr Hlf. rewrite replace_no_CR by assumption.
  induction s as [|c r IH]; [reflexivity|].
  cbn [flat_map]. apply no_CR_cons in Hcr as [_ Hr].
  destruct (N.eqb_spec c LF) as [->|Hl]; [elim Hlf; now left|].
  cbn [app]. f_equal. apply IH; [assumption|].
  intro Hin. apply Hlf. now right.
Qed.

Lemma In_LF_dec (s : jsstring) : In LF s \/ ~ In LF s.
Proof. destruct (in_dec N.eq_dec LF s); auto. Qed.

(** A text of CRLF pairs only comes back from the normalization to LF and
    the conversion to CRLF. *)
Lemma crlf_normalize_and_back (s : jsstring) :
  crs_paired s = true -> LF_LINE_ENDING_REG_test s = false ->
  replace_LINE_ENDING_REG (replace_LINE_ENDING_REG s [LF]) [CR; LF] = s.
Proof.
  unfold LF_LINE_ENDING_REG_test.
  induction s as [| x | x y l IHl IHyl] using list_ind2.
  - reflexivity.
  - cbn [crs_paired LF_LINE_ENDING_REG_from negb].
    destruct (N.eqb_spec x CR) as [->|Hc]; [discriminate|].
    rewrite andb_true_r.
    destruct (N.eqb_spec x LF) as [->|Hl]; [discriminate|].
    intros _ _. cbn [replace_LINE_ENDING_REG].
    apply N.eqb_neq in Hl. rewrite Hl. cbn [replace_LINE_ENDING_REG].
    now rewrite Hl.
  - intros Hp Ht. cbn [crs_paired] in Hp.
    cbn [LF_LINE_ENDING_REG_from negb] in Ht. rewrite andb_true_r in Ht.
    destruct (N.eqb_spec x LF) as [->|Hl]; [discriminate|].
    destruct (N.eqb_spec x CR) as [->|Hc].
    + apply andb_true_iff in Hp as [Hy Hp]. apply N.eqb_eq in Hy. subst y.
      cbn [crs_paired] in Hp. rewrite eqb_LF_CR in Hp.
      rewrite N.eqb_refl in Ht. cbn [andb negb] in Ht. rewrite eqb_LF_CR in Ht.
      rewrite replace_cons_CRLF. cbn [app]. rewrite replace_cons_LF.
      cbn [app]. now rewrite IHl.
    + rewrite replace_cons_other by assumption.
      rewrite replace_cons_other by assumption.
      now rewrite IHyl.
Qed.

(** What a load followed by a save hands to [iconv.encode]. *)
Lemma adjusted_after_load (src preferredEol : jsstring) (options : Options) :
  uniform_line_endings src ->
  let isLf := LF_LINE_ENDING_REG_test src in
  let isCrlf := CRLF_LINE_ENDING_REG_test src in
  let eol :=
    if isLf && negb isCrlf then js "lf"
    else if isCrlf && negb isLf then js "crlf" else preferredEol in
  lineEnding options = eol ->
  adjustLineEndingOnSave options = negb (str_eqb eol (js "lf")) ->
  adjusted (replace_LINE_ENDING_REG src [LF]) options = src.
Proof.
  intros Hu. cbv zeta. intros Hl Ha. unfold adjusted. rewrite Ha, Hl.
  clear Ha Hl.
  assert (Hno : ~ In CR src ->
    (if negb (str_eqb
               (if LF_LINE_ENDING_REG_test src && negb false then js "lf"
                else if false && negb (LF_LINE_ENDING_REG_test src)
                     then js "crlf" else preferredEol) (js "lf"))
     then convertLineEndings (replace_LINE_ENDING_REG src [LF])
            (if LF_LINE_ENDING_REG_test src && negb false then js "lf"
             else if false && negb (LF_LINE_ENDING_REG_test src)
                  then js "crlf" else preferredEol)
     else replace_LINE_ENDING_REG src [LF]) = src).
  { intro Hcr.
    rewrite (replace_LINE_ENDING_REG_no_CRLF src (no_CR_no_CRLF src Hcr)).
    destruct (In_LF_dec src) as [Hlf|Hlf].
    - unfold LF_LINE_ENDING_REG_test. rewrite (LF_from_no_CR src Hcr Hlf).
      reflexivity.
    - unfold LF_LINE_ENDING_REG_test. rewrite (LF_from_no_LF src false Hlf).
      cbn [andb negb].
      destruct (negb (str_eqb preferredEol (js "lf"))); [|reflexivity].
      unfold convertLineEndings. now apply replace_no_line_ending. }
  destruct Hu as [Hcr|[Hp Ht]].
  - rewrite (no_CR_no_CRLF src Hcr). now apply Hno.
  - destruct (CRLF_LINE_ENDING_REG_test src) eqn:Ec.
    + rewrite Ht. cbn [andb negb].
      change (str_eqb (js "crlf") (js "lf")) with false. cbn [negb].
      unfold convertLineEndings.
      change (getLineEnding (js "crlf")) with [CR; LF].
      now apply crlf_normalize_and_back.
    + apply Hno. now apply crs_paired_no_CRLF.
Qed.

(** A load of what a save wrote, on a pathname on which the two tests for
    [.mde] agree: the document, in terms of the text of the save. *)
Lemma load_after_save
    (env : LoadEnv) (iconv_encode : jsstring -> jsstring -> bool -> list byte)
    (pathname content preferredEol : jsstring)
    (options : Options) (autoGuess : bool) (trim : N) (call : WriteFileCall) :
  ~ In CR content ->
  (str_eqb (Path.extname pathname) (js ".mde") = true ->
   well_formed content = true) ->
  endsWith pathname (js ".mde") = str_eqb (Path.extname pathname) (js ".mde") ->
  writeMarkdownFile iconv_encode pathname content options = Ok call ->
  readFile env (path_resolve env pathname) = Ok (write_buffer call) ->
  encodingExists env
    (encoding (guessEncoding env (write_buffer call) autoGuess)) = true ->
  (forall text, savedText pathname content options = Ok text ->
     decodedText env autoGuess
       (iconv_encode text (encoding (options_encoding options))
          (isBom (options_encoding options))) = text) ->
  exists doc,
    loadMarkdownFile env pathname preferredEol autoGuess trim = Ok doc
    /\ let src := adjusted content options in
       let isLf := LF_LINE_ENDING_REG_test src in
       let isCrlf := CRLF_LINE_ENDING_REG_test src in
       markdown doc = content
       /\ isMixedLineEndings doc = isLf && isCrlf
       /\ doc_lineEnding doc =
           (if isLf && negb isCrlf then js "lf"
            else if isCrlf && negb isLf then js "crlf" else preferredEol)
       /\ doc_adjustLineEndingOnSave doc
          = negb (str_eqb (doc_lineEnding doc) (js "lf")).
Proof.
  intros Hcr Hwf Hagree Hwrite Hread Hsup Hdec.
  destruct (writeMarkdownFile_savedText _ _ _ _ _ Hwrite)
    as (text & Hsave & Hbuf & _).
  specialize (Hdec text Hsave). rewrite <- Hbuf in Hdec.
  destruct (loadMarkdownFile_ok env pathname preferredEol autoGuess trim
              _ Hread Hsup) as [doc Hdoc].
  exists doc. split; [exact Hdoc|].
  destruct (loadMarkdownFile_inv _ _ _ _ _ _ Hdoc)
    as (buffer & Hread' & _ & Hm & Hmix & Hle & Hadj & _).
  rewrite Hread in Hread'. injection Hread' as <-.
  rewrite (sourceText_savedText env pathname content options autoGuess
             _ text Hcr Hwf Hagree Hsave Hdec) in Hm, Hmix, Hle.
  cbv zeta. rewrite Hm, Hmix, Hle, Hadj, Hle.
  split; [now apply adjusted_normalized|]. repeat split.
Qed.

End Detection.

(** X7.  A save followed by a load returns the content.  The content has no
    carriage return (as every loaded document), the two tests for [.mde]
    agree on the pathname, [iconv] decodes the written bytes to the text that
    it encoded, and for an encrypted file the content has no unpaired
    surrogate. *)
Theorem X7_save_then_load_returns_the_content
    (env : Markdown.LoadEnv)
    (iconv_encode : jsstring -> jsstring -> bool -> list byte)
    (pathname content preferredEol : jsstring)
    (options : Markdown.Options) (autoGuess : bool) (trim : N)
    (call : Markdown.WriteFileCall) :
  ~ In CR content ->
  (str_eqb (Path.extname pathname) (js ".mde") = true ->
   Terms.well_formed content = true) ->
  endsWith pathname (js ".mde") = str_eqb (Path.extname pathname) (js ".mde") ->
  Markdown.writeMarkdownFile iconv_encode pathname content options = Ok call ->
  Markdown.readFile env (Markdown.path_resolve env pathname)
    = Ok (Markdown.write_buffer call) ->
  Markdown.encodingExists env
    (Markdown.encoding
       (Markdown.guessEncoding env (Markdown.write_buffer call) autoGuess))
    = true ->
  (forall text, Terms.savedText pathname content options = Ok text ->
     Terms.decodedText env autoGuess
       (iconv_encode text
          (Markdown.encoding (Markdown.options_encoding options))
          (Markdown.isBom (Markdown.options_encoding options))) = text) ->
  exists doc,
    Markdown.loadMarkdownFile env pathname preferredEol autoGuess trim = Ok doc
    /\ Markdown.markdown doc = content.
Proof.
  intros Hcr Hwf Hagree Hwrite Hread Hsup Hdec.
  destruct (load_after_save env iconv_encode pathname content preferredEol
              options autoGuess trim call Hcr Hwf Hagree Hwrite Hread Hsup Hdec)
    as (doc & Hdoc & Hm & _).
  exists doc. split; assumption.
Qed.

(** X8.  Under the same conditions, when the content has a line feed after
    its first code unit the loaded document carries the line ending of the
    save: ['crlf'] with [adjustLineEndingOnSave] set when the save converted
    to CRLF, ['lf'] with the flag clear otherwise, and never mixed line
    endings, whatever the preferred line ending of the load.  (A line feed
    that is the first code unit is left aside: it is preceded by nothing, and
    whether it counts as an LF line ending is decided by
    [LF_LINE_ENDING_REG], which is not among the sources.) *)
Theorem X8_save_then_load_returns_the_line_ending
    (env : Markdown.LoadEnv)
    (iconv_encode : jsstring -> jsstring -> bool -> list byte)
    (pathname content preferredEol : jsstring)
    (options : Markdown.Options) (autoGuess : bool) (trim : N)
    (call : Markdown.WriteFileCall) :
  ~ In CR content -> In LF (tl content) ->
  (str_eqb (Path.extname pathname) (js ".mde") = true ->
   Terms.well_formed content = true) ->
  endsWith pathname (js ".mde") = str_eqb (Path.extname pathname) (js ".mde") ->
  Markdown.writeMarkdownFile iconv_encode pathname content options = Ok call ->
  Markdown.readFile env (Markdown.path_resolve env pathname)
    = Ok (Markdown.write_buffer call) ->
  Markdown.encodingExists env
    (Markdown.encoding
       (Markdown.guessEncoding env (Markdown.write_buffer call) autoGuess))
    = true ->
  (forall text, Terms.savedText pathname content options = Ok text ->
     Terms.decodedText env autoGuess
       (iconv_encode text
          (Markdown.encoding (Markdown.options_encoding options))
          (Markdown.isBom (Markdown.options_encoding options))) = text) ->
  let crlf :=
    Markdown.adjustLineEndingOnSave options
    && str_eqb (Markdown.lineEnding options) (js "crlf") in
  exists doc,
    Markdown.loadMarkdownFile env pathname preferredEol autoGuess trim = Ok doc
    /\ Markdown.doc_lineEnding doc = (if crlf then js "crlf" else js "lf")
    /\ Markdown.doc_adjustLineEndingOnSave doc = crlf
    /\ Markdown.isMixedLineEndings doc = false.
Proof.
  intros Hcr Hlf Hwf Hagree Hwrite Hread Hsup Hdec crlf.
  assert (Hlf' : In LF content)
    by (destruct content; [destruct Hlf|now right]).
  clear Hlf. rename Hlf' into Hlf.
  destruct (load_after_save env iconv_encode pathname content preferredEol
              options autoGuess trim call Hcr Hwf Hagree Hwrite Hread Hsup Hdec)
    as (doc & Hdoc & _ & Hmix & Hle & Hadj).
  exists doc. split; [exact Hdoc|].
  destruct (detection_adjusted content options Hcr Hlf) as [E1 E2].
  fold crlf in E1, E2. rewrite Hadj, Hle, Hmix, E1, E2.
  destruct crlf; repeat split.
Qed.

(** X9.  A load followed by a save with the options of the loaded document
    writes the bytes that were read, for a file that is not encrypted, whose
    line endings are of one kind, and whose bytes [iconv] encodes back from
    the decoded text.  The text has no line feed, or one after its first
    code unit, or is a single line feed: a line feed that only starts a
    longer text is left aside, since whether it counts as an LF line ending
    is decided by [LF_LINE_ENDING_REG], which is not among the sources. *)
Theorem X9_load_then_save_writes_the_bytes_read
    (env : Markdown.LoadEnv)
    (iconv_encode : jsstring -> jsstring -> bool -> list byte)
    (pathname preferredEol : jsstring) (autoGuess : bool) (trim : N)
    (doc : Markdown.Document) (buffer : list byte) :
  Markdown.loadMarkdownFile env pathname preferredEol autoGuess trim = Ok doc ->
  Markdown.readFile env (Markdown.path_resolve env pathname) = Ok buffer ->
  endsWith pathname (js ".mde") = false ->
  str_eqb (Path.extname pathname) (js ".mde") = false ->
  Terms.uniform_line_endings (Terms.decodedText env autoGuess buffer) ->
  (~ In LF (Terms.decodedText env autoGuess buffer)
   \/ In LF (tl (Terms.decodedText env autoGuess buffer))
   \/ Terms.decodedText env autoGuess buffer = [LF]) ->
  iconv_encode (Terms.decodedText env autoGuess buffer)
    (Markdown.encoding (Markdown.doc_encoding doc))
    (Markdown.isBom (Markdown.doc_encoding doc)) = buffer ->
  exists call,
    Markdown.writeMarkdownFile iconv_encode pathname (Markdown.markdown doc)
      (Terms.options_of doc) = Ok call
    /\ Markdown.write_buffer call = buffer.
Proof.
  intros Hdoc Hread Hends Hext Hu _ Henc.
  destruct (loadMarkdownFile_inv _ _ _ _ _ _ Hdoc)
    as (buffer' & Hread' & _ & Hm & _ & Hle & Hadj & _).
  rewrite Hread in Hread'. injection Hread' as <-.
  assert (Hsrc : Terms.sourceText env pathname autoGuess buffer
                 = Terms.decodedText env autoGuess buffer).
  { unfold Terms.sourceText. cbv zeta. now rewrite Hends. }
  rewrite Hsrc in Hm, Hle.
  assert (Hsave : Terms.savedText pathname (Markdown.markdown doc)
                    (Terms.options_of doc)
                  = Ok (Terms.decodedText env autoGuess buffer)).
  { unfold Terms.savedText. cbv zeta. rewrite extension_is_mde, Hext.
    fold (Terms.adjusted (Markdown.markdown doc) (Terms.options_of doc)).
    f_equal. rewrite Hm.
    apply (adjusted_after_load _ preferredEol); [exact Hu| |].
    - exact Hle.
    - cbn [Terms.options_of Markdown.adjustLineEndingOnSave].
      rewrite Hadj. now rewrite Hle. }
  destruct (savedText_writeMarkdownFile iconv_encode _ _ _ _ Hsave)
    as (call & Hcall & Hbuf).
  exists call. split; [exact Hcall|]. rewrite Hbuf. exact Henc.
Qed.

Lemma X7_save_then_load_returns_the_content_witness :
  exists doc,
    Markdown.loadMarkdownFile
      (Terms.oneFileEnv (Buf.utf8_encode (js "QHrzkmj1cR/T1HLpaoZPJw==")))
      (js "/docs/a.mde") (js "lf") true 2 = Ok doc
    /\ Markdown.markdown doc = js "a" ++ [LF] ++ js "b" ++ [LF].
Proof.
  apply (X7_save_then_load_returns_the_content
           (Terms.oneFileEnv (Buf.utf8_encode (js "QHrzkmj1cR/T1HLpaoZPJw==")))
           Terms.utf8_iconv_encode
           (js "/docs/a.mde") (js "a" ++ [LF] ++ js "b" ++ [LF]) (js "lf")
           {| Markdown.adjustLineEndingOnSave := true;
              Markdown.lineEnding := js "crlf";
              Markdown.options_encoding := Terms.utf8Encoding |}
           true 2
           {| Markdown.write_pathname := js "/docs/a.mde";
              Markdown.write_buffer :=
                Buf.utf8_encode (js "QHrzkmj1cR/T1HLpaoZPJw==");
              Markdown.write_extension := js ".mde" |}).
  - intro H. repeat (destruct H as [H|H]; [discriminate|]). exact H.
  - intros _. vm_compute. reflexivity.
  - vm_compute. reflexivity.
  - vm_compute. reflexivity.
  - vm_compute. reflexivity.
  - vm_compute. reflexivity.
  - intros text H. vm_compute in H. injection H as <-. vm_compute. reflexivity.
Defined.

Lemma X8_save_then_load_returns_the_line_ending_witness :
  exists doc,
    Markdown.loadMarkdownFile
      (Terms.oneFileEnv (Buf.utf8_encode (js "QHrzkmj1cR/T1HLpaoZPJw==")))
      (js "/docs/a.mde") (js "lf") true 2 = Ok doc
    /\ Markdown.doc_lineEnding doc = js "crlf"
    /\ Markdown.doc_adjustLineEndingOnSave doc = true
    /\ Markdown.isMixedLineEndings doc = false.
Proof.
  apply (X8_save_then_load_returns_the_line_ending
           (Terms.oneFileEnv (Buf.utf8_encode (js "QHrzkmj1cR/T1HLpaoZPJw==")))
           Terms.utf8_iconv_encode
           (js "/docs/a.mde") (js "a" ++ [LF] ++ js "b" ++ [LF]) (js "lf")
           {| Markdown.adjustLineEndingOnSave := true;
              Markdown.lineEnding := js "crlf";
              Markdown.options_encoding := Terms.utf8Encoding |}
           true 2
           {| Markdown.write_pathname := js "/docs/a.mde";
              Markdown.write_buffer :=
                Buf.utf8_encode (js "QHrzkmj1cR/T1HLpaoZPJw==");
              Markdown.write_extension := js ".mde" |}).
  - intro H. repeat (destruct H as [H|H]; [discriminate|]). exact H.
  - left. reflexivity.
  - intros _. vm_compute. reflexivity.
  - vm_compute. reflexivity.
  - vm_compute. reflexivity.
  - vm_compute. reflexivity.
  - vm_compute. reflexivity.
  - intros text H. vm_compute in H. injection H as <-. vm_compute. reflexivity.
Defined.

Lemma X9_load_then_save_writes_the_bytes_read_witness :
  exists call,
    Markdown.writeMarkdownFile Terms.utf8_iconv_encode (js "/docs/a.md")
      (js "a" ++ [LF] ++ js "b" ++ [LF])
      {| Markdown.adjustLineEndingOnSave := true;
         Markdown.lineEnding := js "crlf";
         Markdown.options_encoding := Terms.utf8Encoding |} = Ok call
    /\ Markdown.write_buffer call
       = Buf.utf8_encode (js "a" ++ [CR; LF] ++ js "b" ++ [CR; LF]).
Proof.
  apply (X9_load_then_save_writes_the_bytes_read
           (Terms.oneFileEnv
              (Buf.utf8_encode (js "a" ++ [CR; LF] ++ js "b" ++ [CR; LF])))
           Terms.utf8_iconv_encode (js "/docs/a.md") (js "lf") true 2
           {| Markdown.markdown := js "a" ++ [LF] ++ js "b" ++ [LF];
              Markdown.filename := js "a.md";
              Markdown.pathname := js "/docs/a.md";
              Markdown.doc_encoding := Terms.utf8Encoding;
              Markdown.doc_lineEnding := js "crlf";
              Markdown.doc_adjustLineEndingOnSave := true;
              Markdown.trimTrailingNewline := 1;
              Markdown.isMixedLineEndings := false |}).
  - vm_compute. reflexivity.
  - vm_compute. reflexivity.
  - vm_compute. reflexivity.
  - vm_compute. reflexivity.
  - right. split; vm_compute; reflexivity.
  - right. left. vm_compute. right. left. reflexivity.
  - vm_compute. reflexivity.
Defined.

(** ** The asset directory of ordinary pathnames *)

Section AssetDir.
Import FileActions Terms.

Lemma indexOf_cons_None (c : N) (s a : jsstring) :
  indexOf (c :: s) a = None ->
  startsWith (c :: s) a = false /\ indexOf s a = None.
Proof.
  cbn [indexOf]. destruct (startsWith (c :: s) a); [discriminate|].
  destruct (indexOf s a); [discriminate|]. now split.
Qed.

Lemma indexOf_cons_skip (c : N) (s a : jsstring) (i : nat) :
  startsWith (c :: s) a = false -> indexOf s a = Some i ->
  indexOf (c :: s) a = Some (S i).
Proof. intros H1 H2. cbn [indexOf]. now rewrite H1, H2. Qed.

Lemma indexOf_cons_skip_None (c : N) (s a : jsstring) :
  startsWith (c :: s) a = false -> indexOf s a = None ->
  indexOf (c :: s) a = None.
Proof. intros H1 H2. cbn [indexOf]. now rewrite H1, H2. Qed.

(** The first three code units of [base ++ ".m"] are those of
    [base ++ ".m" ++ t]. *)
Lemma startsWith_md_ext (base t : jsstring) (c : N) :
  startsWith ((c :: base) ++ js ".m") (js ".md") = false ->
  startsWith ((c :: base) ++ js ".m" ++ t) (js ".md") = false.
Proof. destruct base as [|d [|e b]]; exact (fun H => H). Qed.

Lemma startsWith_longer (s a b : jsstring) :
  startsWith s a = false -> startsWith s (a ++ b) = false.
Proof.
  revert s. induction a as [|x a IH]; intros s H; [discriminate|].
  destruct s as [|y s]; [reflexivity|]. cbn [app startsWith] in *.
  destruct (x =? y); [|reflexivity]. cbn [andb] in *. now apply IH.
Qed.

Lemma indexOf_longer_None (s a b : jsstring) :
  indexOf s a = None -> indexOf s (a ++ b) = None.
Proof.
  induction s as [|c s IH].
  - cbn [indexOf]. destruct (startsWith [] a) eqn:E; [discriminate|].
    intros _. now rewrite (startsWith_longer _ _ b E).
  - intro H. apply indexOf_cons_None in H as [H1 H2].
    apply indexOf_cons_skip_None; [now apply startsWith_longer|now apply IH].
Qed.

Lemma indexOf_md (base t : jsstring) :
  indexOf (base ++ js ".m") (js ".md") = None ->
  indexOf (base ++ js ".m" ++ js "d" ++ t) (js ".md") = Some (length base).
Proof.
  induction base as [|c b IH]; [reflexivity|].
  intro H. apply indexOf_cons_None in H as [H1 H2].
  cbn [length]. apply indexOf_cons_skip; [|now apply IH].
  now apply (startsWith_md_ext b (js "d" ++ t) c).
Qed.

Lemma indexOf_mde (base t : jsstring) :
  indexOf (base ++ js ".m") (js ".md") = None ->
  indexOf (base ++ js ".m" ++ js "de" ++ t) (js ".mde") = Some (length base).
Proof.
  induction base as [|c b IH]; [reflexivity|].
  intro H. apply indexOf_cons_None in H as [H1 H2].
  cbn [length]. apply indexOf_cons_skip; [|now apply IH].
  apply (startsWith_longer _ (js ".md") (js "e")).
  now apply (startsWith_md_ext b (js "de" ++ t) c).
Qed.

Lemma indexOf_md_in_assets (base : jsstring) :
  indexOf (base ++ js ".m") (js ".md") = None ->
  indexOf (base ++ js ".assets") (js ".md") = None.
Proof.
  induction base as [|c b IH]; [reflexivity|].
  intro H. apply indexOf_cons_None in H as [H1 H2].
  apply indexOf_cons_skip_None; [|now apply IH].
  destruct b as [|d [|e b']].
  - cbn. now rewrite andb_false_r.
  - cbn. now rewrite !andb_false_r.
  - exact H1.
Qed.

Lemma firstn_skipn_middle (base mid t : jsstring) (by_ : jsstring) :
  firstn (length base) (base ++ mid ++ t) ++ by_
  ++ skipn (length base + length mid) (base ++ mid ++ t)
  = base ++ by_ ++ t.
Proof.
  rewrite firstn_app, Nat.sub_diag, firstn_all. cbn [firstn].
  rewrite app_nil_r. f_equal. f_equal.
  rewrite app_assoc, skipn_app, length_app, Nat.sub_diag.
  cbn [skipn]. rewrite <- length_app, skipn_all. reflexivity.
Qed.

Lemma indexOf_mde_in_md (base : jsstring) :
  indexOf (base ++ js ".m") (js ".md") = None ->
  indexOf (base ++ js ".md") (js ".mde") = None.
Proof.
  induction base as [|c b IH]; [reflexivity|].
  intro H. apply indexOf_cons_None in H as [H1 H2].
  apply indexOf_cons_skip_None; [|now apply IH].
  apply (startsWith_longer _ (js ".md") (js "e")).
  now apply (startsWith_md_ext b (js "d") c).
Qed.

Lemma firstn_skipn_end (base mid by_ : jsstring) :
  firstn (length base) (base ++ mid) ++ by_
  ++ skipn (length base + length mid) (base ++ mid)
  = base ++ by_.
Proof.
  rewrite firstn_app, Nat.sub_diag, firstn_all. cbn [firstn].
  rewrite app_nil_r. f_equal.
  rewrite <- length_app, skipn_all. apply app_nil_r.
Qed.

Lemma assetDir_md (base : jsstring) :
  indexOf (base ++ js ".m") (js ".md") = None ->
  assetDir (base ++ js ".md") = base ++ js ".assets".
Proof.
  intro H. unfold assetDir, replaceFirst.
  rewrite (indexOf_mde_in_md base H).
  assert (E : indexOf (base ++ js ".md") (js ".md") = Some (length base))
    by exact (indexOf_md base [] H).
  rewrite E. apply firstn_skipn_end.
Qed.

Lemma assetDir_mde (base : jsstring) :
  indexOf (base ++ js ".m") (js ".md") = None ->
  assetDir (base ++ js ".mde") = base ++ js ".assets".
Proof.
  intro H. unfold assetDir, replaceFirst.
  assert (E : indexOf (base ++ js ".mde") (js ".mde") = Some (length base))
    by exact (indexOf_mde base [] H).
  rewrite E, firstn_skipn_end.
  now rewrite (indexOf_md_in_assets base H).
Qed.

Lemma assetDir_no_md (filePath : jsstring) :
  indexOf filePath (js ".md") = None -> assetDir filePath = filePath.
Proof.
  intro H. unfold assetDir, replaceFirst.
  assert (E : indexOf filePath (js ".mde") = None)
    by exact (indexOf_longer_None _ (js ".md") (js "e") H).
  now rewrite E, H.
Qed.

End AssetDir.

(** X10.  For a pathname [base.md] or [base.mde] in which no [.md] starts
    inside [base], the asset directory is [base.assets]: the sibling of the
    document. *)
Theorem X10_asset_directory_of_a_plain_pathname (base : jsstring) :
  indexOf (base ++ js ".m") (js ".md") = None ->
  FileActions.assetDir (base ++ js ".md") = base ++ js ".assets"
  /\ FileActions.assetDir (base ++ js ".mde") = base ++ js ".assets".
Proof.
  intro H. split; [now apply assetDir_md|now apply assetDir_mde].
Qed.

Lemma X10_asset_directory_of_a_plain_pathname_witness :
  FileActions.assetDir (js "/home/u.name/note" ++ js ".md")
  = js "/home/u.name/note" ++ js ".assets"
  /\ FileActions.assetDir (js "/home/u.name/note" ++ js ".mde")
     = js "/home/u.name/note" ++ js ".assets".
Proof.
  apply X10_asset_directory_of_a_plain_pathname. reflexivity.
Defined.

(** ** The scanner and the check, end to end *)

Section Scanner.
Import RegExp FileActions Terms.

Lemma star_lazy_incl (k : jsstring -> option jsstring) (a : atom) :
  (forall s t, k s = Some t -> incl t s) ->
  forall s t, star_lazy k a s = Some t -> incl t s.
Proof.
  intros Hk s. induction s as [|x s IH]; intros t H; cbn [star_lazy] in H.
  - destruct (k []) eqn:E; [|discriminate]. injection H as <-. now apply Hk.
  - destruct (k (x :: s)) eqn:E.
    + injection H as <-. now apply Hk.
    + destruct (atom_matches a x); [|discriminate].
      apply incl_tl. now apply IH.
Qed.

Lemma star_greedy_incl (k : jsstring -> option jsstring) (a : atom) :
  (forall s t, k s = Some t -> incl t s) ->
  forall s t, star_greedy k a s = Some t -> incl t s.
Proof.
  intros Hk s. induction s as [|x s IH]; intros t H; cbn [star_greedy] in H.
  - now apply Hk.
  - destruct (atom_matches a x); [|now apply Hk].
    destruct (star_greedy k a s) eqn:E.
    + injection H as <-. apply incl_tl. now apply IH.
    + now apply Hk.
Qed.

(** What is left after a match is a part of the subject. *)
Lemma match_here_incl (r : regex) (s t : jsstring) :
  match_here r s = Some t -> incl t s.
Proof.
  revert s t. induction r as [|[a q] r IH]; intros s t H;
    cbn [match_here] in H.
  - injection H as <-. apply incl_refl.
  - destruct q.
    + destruct s as [|x s]; [discriminate|].
      destruct (atom_matches a x); [|discriminate].
      apply incl_tl. now apply IH.
    + now apply (star_lazy_incl _ a IH).
    + destruct s as [|x s]; [discriminate|].
      destruct (atom_matches a x); [|discriminate].
      apply incl_tl. now apply (star_greedy_incl _ a IH).
    + destruct s as [|x s]; [discriminate|].
      destruct (atom_matches a x); [|discriminate].
      apply incl_tl. now apply (star_lazy_incl _ a IH).
Qed.

Lemma incl_firstn (n : nat) (s : jsstring) : incl (firstn n s) s.
Proof.
  intros x H. rewrite <- (firstn_skipn n s). apply in_or_app. now left.
Qed.

(** The code units of a match are code units of the subject. *)
Lemma match_all_incl (r : regex) (fuel : nat) (s m : jsstring) :
  In m (match_all fuel r s) -> incl m s.
Proof.
  revert s. induction fuel as [|fuel IH]; intros s H; [destruct H|].
  cbn [match_all] in H.
  destruct (match_here r s) as [rest|] eqn:E.
  - destruct H as [<-|H]; [apply incl_firstn|].
    destruct (firstn (length s - length rest) s) as [|y m0].
    + destruct s as [|c s']; [destruct H|].
      apply incl_tl. now apply IH.
    + apply incl_tran with rest; [now apply IH|].
      now apply (match_here_incl r).
  - destruct s as [|c s']; [destruct H|].
    apply incl_tl. now apply IH.
Qed.

Lemma Decode_no_percent (set s : jsstring) (fuel : nat) :
  ~ In URI.PERCENT s -> (length s <= fuel)%nat -> URI.Decode fuel set s = Ok s.
Proof.
  revert fuel. induction s as [|c s IH]; intros fuel Hp Hf.
  - now destruct fuel.
  - destruct fuel as [|fuel]; [cbn [length] in Hf; lia|].
    cbn [URI.Decode].
    destruct (N.eqb_spec c URI.PERCENT) as [->|Hc]; [elim Hp; now left|].
    rewrite IH; [reflexivity| |cbn [length] in Hf; lia].
    intro Hin. apply Hp. now right.
Qed.

Lemma decodeURI_no_percent (s : jsstring) :
  ~ In URI.PERCENT s -> URI.decodeURI s = Ok s.
Proof. intro H. unfold URI.decodeURI. now apply Decode_no_percent. Qed.

Lemma push_decoded_id (imgRow es : list jsstring) :
  (forall e, In e es -> URI.decodeURI e = Ok e) ->
  push_decoded imgRow es = Ok (imgRow ++ es).
Proof.
  revert imgRow. induction es as [|e es IH]; intros imgRow H.
  - cbn [push_decoded]. now rewrite app_nil_r.
  - cbn [push_decoded]. rewrite (H e) by now left.
    rewrite IH by (intros e' He'; apply H; now right).
    now rewrite <- app_assoc.
Qed.

Lemma push_decoded_throws (imgRow es : list jsstring) (err : URI.URIError) :
  push_decoded imgRow es = Throw err
  <-> exists m, In m es /\ URI.decodeURI m = Throw err.
Proof.
  revert imgRow. induction es as [|e es IH]; intro imgRow;
    cbn [push_decoded].
  - split; [discriminate|]. intros [m [[] _]].
  - destruct (URI.decodeURI e) as [d|err'] eqn:E.
    + rewrite IH. split.
      * intros [m [Hin Hm]]. exists m. split; [now right|exact Hm].
      * intros [m [[<-|Hin] Hm]]; [congruence|]. now exists m.
    + split.
      * intro H. exists e. split; [now left|congruence].
      * intros _. now destruct err, err'.
Qed.

(** The matches of the two patterns, in the order of the scanner. *)
Lemma In_matches_incl (markdown m : jsstring) :
  In m (match_g imgMark_reg markdown ++ match_g imgHtml_reg markdown) ->
  incl m markdown.
Proof.
  intro H. apply in_app_or in H as [H|H];
    now apply (match_all_incl _ _ _ _ H).
Qed.

Lemma collect_inv (fs : FsEnv) (filePath : jsstring)
    (imgRow paths : list jsstring) (path : jsstring) :
  collect fs filePath imgRow = Ok (Some paths) -> In path paths ->
  let dir := assetDir filePath in
  existsSync fs dir = true
  /\ ((imgRow = [] /\ path = dir)
      \/ (imgRow <> [] /\
          exists dirFiles dirFile,
            readdirSync fs dir = Ok dirFiles
            /\ In dirFile dirFiles
            /\ path = dir ++ Path.sep ++ dirFile
            /\ forall onePath, In onePath imgRow ->
                 ~ substring dirFile onePath)).
Proof.
  unfold collect. cbv zeta.
  destruct (existsSync fs (assetDir filePath)) eqn:Hd; cbn [andb negb].
  - destruct imgRow as [|r imgRow]; cbn [length Nat.eqb].
    + intro H. injection H as <-. intros [<-|[]]. split; [reflexivity|].
      left. now split.
    + destruct (readdirSync fs (assetDir filePath)) as [dirFiles|] eqn:Hr;
        [|discriminate].
      intro H. injection H as <-. intro Hin. split; [reflexivity|].
      right. split; [discriminate|].
      assert (Hin' := Hin).
      rewrite notNeedFiles_after_filter in Hin'.
      apply in_map_iff in Hin' as [f [<- _]].
      apply In_notNeedFiles_after in Hin as [Hf Hno].
      exists dirFiles, f. repeat split; assumption.
  - discriminate.
Qed.

Lemma tryDelete_inv (env : TrashEnv) (paths : list jsstring) (path : jsstring) :
  In path (trashed (tryDelete env (Some paths))) ->
  In path paths
  /\ asked (tryDelete env (Some paths)) = Some paths
  /\ showMessageBox_response env paths = 0.
Proof.
  unfold tryDelete, showIfDeleteMessage.
  destruct (0 <? length paths)%nat; [|intros []].
  destruct (showMessageBox_response env paths) as [|p]; cbn [trashed asked].
  - intro H. repeat split. exact H.
  - destruct p; intros [].
Qed.

End Scanner.

(** X11.  On a markdown text without percent sign the scanner does not
    throw, and returns the matches of the two patterns as they are, those of
    the markdown pattern first. *)
Theorem X11_scanner_without_percent_sign (markdown : jsstring) :
  ~ In URI.PERCENT markdown ->
  FileActions.getRelativeImgPathFromMarkdown markdown
  = Ok (RegExp.match_g FileActions.imgMark_reg markdown
        ++ RegExp.match_g FileActions.imgHtml_reg markdown).
Proof.
  intro H. unfold FileActions.getRelativeImgPathFromMarkdown. cbv zeta.
  apply (push_decoded_id []).
  intros e He. apply decodeURI_no_percent.
  intro Hin. apply H. exact (In_matches_incl markdown e He _ Hin).
Qed.

Lemma X11_scanner_without_percent_sign_witness :
  FileActions.getRelativeImgPathFromMarkdown (js "a ![x](b c.png) d")
  = Ok (RegExp.match_g FileActions.imgMark_reg (js "a ![x](b c.png) d")
        ++ RegExp.match_g FileActions.imgHtml_reg (js "a ![x](b c.png) d")).
Proof.
  apply X11_scanner_without_percent_sign.
  intro H. repeat (destruct H as [H|H]; [discriminate|]). exact H.
Defined.

(** X12.  The check for unused images throws a [URIError] exactly when
    [decodeURI] rejects one of the matches of the two patterns; the file
    system is not read then, nothing is asked and nothing is moved to the
    trash, whatever the other references are. *)
Theorem X12_check_throws_on_a_malformed_escape
    (fs : FileActions.FsEnv) (env : FileActions.TrashEnv)
    (filePath markdown : jsstring) (err : URI.URIError) :
  FileActions.checkImgAndDelete_effects fs env filePath markdown
  = Throw (FileActions.UriError err)
  <-> exists m,
        In m (RegExp.match_g FileActions.imgMark_reg markdown
              ++ RegExp.match_g FileActions.imgHtml_reg markdown)
        /\ URI.decodeURI m = Throw err.
Proof.
  rewrite <- (push_decoded_throws []).
  unfold FileActions.checkImgAndDelete_effects, FileActions.checkImgAndDelete,
    FileActions.getRelativeImgPathFromMarkdown. cbv zeta.
  destruct (FileActions.push_decoded [] _) as [imgRow|err'].
  - split; [|discriminate]. unfold FileActions.collect. cbv zeta.
    destruct (_ && _); [discriminate|].
    destruct (negb _); [discriminate|].
    destruct (FileActions.readdirSync fs _); discriminate.
  - split; intro H; congruence.
Qed.

(** X13.  When [.md] does not occur in the pathname of the document (as in
    [notes.txt] or [notes.markdown]), the asset directory is the document
    itself: it exists, so a document without reference is the one candidate,
    and it is moved to the trash when the dialog is confirmed. *)
Theorem X13_document_without_md_is_its_own_asset_directory
    (fs : FileActions.FsEnv) (env : FileActions.TrashEnv)
    (filePath markdown : jsstring) :
  indexOf filePath (js ".md") = None ->
  FileActions.existsSync fs filePath = true ->
  FileActions.getRelativeImgPathFromMarkdown markdown = Ok [] ->
  FileActions.assetDir filePath = filePath
  /\ FileActions.checkImgAndDelete fs filePath markdown = Ok (Some [filePath])
  /\ (FileActions.showMessageBox_response env [filePath] = 0 ->
      exists eff,
        FileActions.checkImgAndDelete_effects fs env filePath markdown = Ok eff
        /\ FileActions.trashed eff = [filePath]).
Proof.
  intros Hmd Hex Hscan.
  assert (Hdir := assetDir_no_md filePath Hmd).
  assert (Hc : FileActions.checkImgAndDelete fs filePath markdown
               = Ok (Some [filePath])).
  { unfold FileActions.checkImgAndDelete, FileActions.collect.
    rewrite Hscan. cbv zeta. rewrite Hdir, Hex. reflexivity. }
  split; [exact Hdir|]. split; [exact Hc|].
  intro Hyes. unfold FileActions.checkImgAndDelete_effects. rewrite Hc.
  eexists. split; [reflexivity|].
  unfold FileActions.tryDelete, FileActions.showIfDeleteMessage.
  rewrite Hyes. reflexivity.
Qed.

Lemma X13_document_without_md_is_its_own_asset_directory_witness :
  exists eff,
    FileActions.checkImgAndDelete_effects (Terms.dirEnv [])
      (Terms.trashEnv 0 []) (js "/home/u/notes.markdown") (js "no image")
    = Ok eff
    /\ FileActions.trashed eff = [js "/home/u/notes.markdown"].
Proof.
  apply (X13_document_without_md_is_its_own_asset_directory
           (Terms.dirEnv []) (Terms.trashEnv 0 [])
           (js "/home/u/notes.markdown") (js "no image"));
    vm_compute; reflexivity.
Defined.

(** X14.  With the asset directory and its entries fixed, a non-empty
    reference sequence that gains references loses candidates, or keeps
    them: no entry becomes a candidate because a reference was added. *)
Theorem X14_more_references_fewer_candidates
    (fs : FileActions.FsEnv) (filePath : jsstring)
    (imgRow imgRow' candidates candidates' : list jsstring) :
  imgRow <> [] -> incl imgRow imgRow' ->
  FileActions.collect fs filePath imgRow = Ok (Some candidates) ->
  FileActions.collect fs filePath imgRow' = Ok (Some candidates') ->
  incl candidates' candidates.
Proof.
  intros Hne Hincl H H' path Hin.
  assert (Hne' : imgRow' <> []).
  { destruct imgRow as [|r l]; [congruence|].
    intro E. subst imgRow'. exact (Hincl r (or_introl eq_refl)). }
  destruct (collect_inv _ _ _ _ _ H' Hin) as [Hd [[E _]|[_ Hc]]];
    [congruence|].
  destruct Hc as (dirFiles & f & Hr & Hf & -> & Hno).
  unfold FileActions.collect in H. cbv zeta in H. rewrite Hd, Hr in H.
  destruct imgRow as [|r l]; [congruence|].
  cbn [length Nat.eqb andb negb] in H. injection H as <-.
  apply In_notNeedFiles_after. split; [exact Hf|].
  intros p Hp. apply Hno. now apply Hincl.
Qed.

Lemma X14_more_references_fewer_candidates_witness :
  incl [js "/d/n.assets/c.png"]
       [js "/d/n.assets/b.png"; js "/d/n.assets/c.png"].
Proof.
  apply (X14_more_references_fewer_candidates
           (Terms.dirEnv [js "a.png"; js "b.png"; js "c.png"]) (js "/d/n.md")
           [js "a.png"] [js "a.png"; js "x/b.png"]).
  - discriminate.
  - intros p [<-|[]]. now left.
  - vm_compute. reflexivity.
  - vm_compute. reflexivity.
Defined.

(** X15.  Whatever the check moves to the trash was listed in the dialog,
    and the dialog was answered with its first button; it is the asset
    directory of a document without reference, or an entry of the asset
    directory whose name occurs in no reference. *)
Theorem X15_only_confirmed_candidates_are_trashed
    (fs : FileActions.FsEnv) (env : FileActions.TrashEnv)
    (filePath markdown : jsstring) (eff : FileActions.DeleteEffects)
    (path : jsstring) :
  FileActions.checkImgAndDelete_effects fs env filePath markdown = Ok eff ->
  In path (FileActions.trashed eff) ->
  let dir := FileActions.assetDir filePath in
  exists imgRow files,
    FileActions.getRelativeImgPathFromMarkdown markdown = Ok imgRow
    /\ FileActions.existsSync fs dir = true
    /\ FileActions.asked eff = Some files
    /\ In path files
    /\ FileActions.showMessageBox_response env files = 0
    /\ ((imgRow = [] /\ path = dir)
        \/ (imgRow <> [] /\
            exists dirFiles dirFile,
              FileActions.readdirSync fs dir = Ok dirFiles
              /\ In dirFile dirFiles
              /\ path = dir ++ Path.sep ++ dirFile
              /\ forall onePath, In onePath imgRow ->
                   ~ Terms.substring dirFile onePath)).
Proof.
  intros H Hin dir.
  unfold FileActions.checkImgAndDelete_effects,
    FileActions.checkImgAndDelete in H.
  destruct (FileActions.getRelativeImgPathFromMarkdown markdown)
    as [imgRow|] eqn:Hscan; [|discriminate].
  destruct (FileActions.collect fs filePath imgRow) as [[paths|]|] eqn:Hc;
    [| |discriminate].
  - injection H as <-.
    destruct (tryDelete_inv env paths path Hin) as (Hp & Ha & Hyes).
    destruct (collect_inv _ _ _ _ _ Hc Hp) as [Hd Hcases].
    exists imgRow, paths. repeat split; assumption.
  - injection H as <-. destruct Hin.
Qed.

Lemma X15_only_confirmed_candidates_are_trashed_witness :
  exists imgRow files,
    FileActions.getRelativeImgPathFromMarkdown (js "![x](a.png)") = Ok imgRow
    /\ FileActions.existsSync
         (Terms.dirEnv [js "a.png"; js "b.png"])
         (FileActions.assetDir (js "/d/n.md")) = true
    /\ Some [js "/d/n.assets/b.png"] = Some files
    /\ In (js "/d/n.assets/b.png") files
    /\ FileActions.showMessageBox_response (Terms.trashEnv 0 []) files = 0
    /\ ((imgRow = [] /\ js "/d/n.assets/b.png"
                         = FileActions.assetDir (js "/d/n.md"))
        \/ (imgRow <> [] /\
            exists dirFiles dirFile,
              FileActions.readdirSync
                (Terms.dirEnv [js "a.png"; js "b.png"])
                (FileActions.assetDir (js "/d/n.md")) = Ok dirFiles
              /\ In dirFile dirFiles
              /\ js "/d/n.assets/b.png"
                 = FileActions.assetDir (js "/d/n.md") ++ Path.sep ++ dirFile
              /\ forall onePath, In onePath imgRow ->
                   ~ Terms.substring dirFile onePath)).
Proof.
  apply (X15_only_confirmed_candidates_are_trashed
           (Terms.dirEnv [js "a.png"; js "b.png"]) (Terms.trashEnv 0 [])
           (js "/d/n.md") (js "![x](a.png)")
           {| FileActions.asked := Some [js "/d/n.assets/b.png"];
              FileActions.trashed := [js "/d/n.assets/b.png"];
              FileActions.notifications := [] |}
           (js "/d/n.assets/b.png")).
  - vm_compute. reflexivity.
  - left. reflexivity.
Defined.
